(** * Canonical request encoding of the token launchpad front end

    A shallow embedding of the encoding functions of
    [frontend/app/page.tsx] and the properties of its wire format.

    Conventions of the embedding:
    - a JavaScript string is the list of its UTF-16 code units ([jsstring]);
      [length] is therefore the [.length] of the source;
    - a [Uint8Array] is a list of integers ([bytes]); every element the code
      stores goes through [ToUint8];
    - a [bigint] is a [Z]; [&] and [>>] are [Z.land] and [Z.shiftr], which
      agree with the two's complement reading BigInt gives to negatives;
    - a [number] is [NaN] or an integer (fractions and infinities are
      outside the model);
    - a [throw] is the [Throw] constructor of [result]. *)

From Stdlib Require Import Ascii String.
From Stdlib Require Import ZArith List Lia Bool.
From Stdlib Require Decimal DecimalFacts DecimalPos DecimalN.
Import ListNotations.
Open Scope Z_scope.

(** ** Values of the run time *)

Definition jsstring := list Z.
Definition bytes := list Z.

Inductive number : Type :=
| NaN
| Int (z : Z).

Inductive exn : Type :=
| Error (msg : string)
| SyntaxError
| RangeError.

Inductive result (A : Type) : Type :=
| Ok (a : A)
| Throw (e : exn).
Arguments Ok {A} a.
Arguments Throw {A} e.

Definition bind {A B} (c : result A) (k : A -> result B) : result B :=
  match c with
  | Ok a => k a
  | Throw e => Throw e
  end.

Declare Scope js_scope.
Notation "x <- c ;; k" := (bind c (fun x => k))
  (at level 61, c at next level, right associativity) : js_scope.
Open Scope js_scope.

(** Code units of an ASCII literal. *)
Definition str (s : string) : jsstring :=
  map (fun a => Z.of_N (N_of_ascii a)) (list_ascii_of_string s).

(** [ToUint8]: the conversion applied when a number is stored in a
    [Uint8Array]. *)
Definition ToUint8 (n : number) : Z :=
  match n with
  | NaN => 0
  | Int z => z mod 256
  end.

(** ** String primitives of the run time *)

(** WhiteSpace and LineTerminator code points, as [trim], [parseInt] and
    [BigInt] skip them. *)
Definition isWhiteSpace (c : Z) : bool :=
  (c =? 9) || (c =? 10) || (c =? 11) || (c =? 12) || (c =? 13) || (c =? 32)
  || (c =? 160) || (c =? 5760) || ((8192 <=? c) && (c <=? 8202))
  || (c =? 8232) || (c =? 8233) || (c =? 8239) || (c =? 8287)
  || (c =? 12288) || (c =? 65279).

Fixpoint dropWhile {A} (p : A -> bool) (l : list A) : list A :=
  match l with
  | [] => []
  | x :: r => if p x then dropWhile p r else l
  end.

Definition dropWhileEnd {A} (p : A -> bool) (l : list A) : list A :=
  rev (dropWhile p (rev l)).

Definition trimStart (s : jsstring) : jsstring := dropWhile isWhiteSpace s.
Definition trim (s : jsstring) : jsstring :=
  dropWhileEnd isWhiteSpace (trimStart s).

(** [s.slice(i, j)] for [0 <= i <= j]. *)
Definition slice (s : jsstring) (i j : nat) : jsstring :=
  firstn (j - i) (skipn i s).

Definition startsWith (s p : jsstring) : bool :=
  if list_eq_dec Z.eq_dec (firstn (length p) s) p then true else false.

(** [s.split(sep)] for a one-unit separator. *)
Fixpoint split (sep : Z) (s : jsstring) : list jsstring :=
  match s with
  | [] => [[]]
  | c :: r =>
      if c =? sep then [] :: split sep r
      else match split sep r with
           | seg :: segs => (c :: seg) :: segs
           | [] => [[c]]
           end
  end.

Definition padEnd (s : jsstring) (n : nat) (c : Z) : jsstring :=
  s ++ repeat c (n - length s).
Definition padStart (s : jsstring) (n : nat) (c : Z) : jsstring :=
  repeat c (n - length s) ++ s.

(** Value of a digit in a radix, [None] when the unit is not a digit of it. *)
Definition digitValue (radix : Z) (c : Z) : option Z :=
  let v := if (48 <=? c) && (c <=? 57) then c - 48
           else if (97 <=? c) && (c <=? 122) then c - 87
           else if (65 <=? c) && (c <=? 90) then c - 55
           else radix in
  if v <? radix then Some v else None.

Definition isDigitOf (radix : Z) (c : Z) : bool :=
  match digitValue radix c with Some _ => true | None => false end.

(** Mathematical value of a digit string, most significant digit first. *)
Definition digitsValue (radix : Z) (s : jsstring) : Z :=
  fold_left
    (fun acc c => radix * acc + match digitValue radix c with
                                | Some v => v
                                | None => 0
                                end) s 0.

Fixpoint takeWhile {A} (p : A -> bool) (l : list A) : list A :=
  match l with
  | [] => []
  | x :: r => if p x then x :: takeWhile p r else []
  end.

(** [s.replace(/^0x/, '')] and [s.replace(/^0x/i, '')]. *)
Definition strip0x (s : jsstring) : jsstring :=
  match s with
  | a :: b :: r => if (a =? 48) && (b =? 120) then r else s
  | _ => s
  end.
Definition strip0xi (s : jsstring) : jsstring :=
  match s with
  | a :: b :: r => if (a =? 48) && ((b =? 120) || (b =? 88)) then r else s
  | _ => s
  end.

(** [s || d] on strings: the empty string is falsy. *)
Definition orElse (s d : jsstring) : jsstring :=
  match s with
  | [] => d
  | _ => s
  end.

(** [s.replace(/^\+/, '')]. *)
Definition stripPlus (s : jsstring) : jsstring :=
  match s with
  | c :: r => if c =? 43 then r else s
  | [] => s
  end.

(** [parseInt(s, 16)]: skip leading white space, an optional sign, an
    optional [0x]/[0X], then read the longest prefix of hexadecimal digits;
    no digit gives [NaN]. *)
Definition parseInt16 (s : jsstring) : number :=
  let s1 := trimStart s in
  let '(neg, s2) := match s1 with
                    | c :: r =>
                        if c =? 45 then (true, r)
                        else if c =? 43 then (false, r)
                        else (false, s1)
                    | [] => (false, s1)
                    end in
  let s3 := strip0xi s2 in
  let z := takeWhile (isDigitOf 16) s3 in
  match z with
  | [] => NaN
  | _ => Int (if neg then - digitsValue 16 z else digitsValue 16 z)
  end.

(** [BigInt(s)] on a string (StringToBigInt): white space is trimmed, the
    empty string is zero, then either a signed run of decimal digits or an
    unsigned literal in base 2, 8 or 16 with its prefix; anything else is a
    [SyntaxError]. *)
Definition allDigits (radix : Z) (s : jsstring) : bool :=
  match s with
  | [] => false
  | _ => forallb (isDigitOf radix) s
  end.

Definition radixOfPrefix (p : Z) : option Z :=
  if (p =? 120) || (p =? 88) then Some 16
  else if (p =? 111) || (p =? 79) then Some 8
  else if (p =? 98) || (p =? 66) then Some 2
  else None.

Definition BigInt (s : jsstring) : result Z :=
  let t := trim s in
  let lit radix ds :=
    if allDigits radix ds then Ok (digitsValue radix ds)
    else Throw SyntaxError in
  match t with
  | [] => Ok 0
  | c :: r =>
      if c =? 45 then v <- lit 10 r ;; Ok (- v)
      else if c =? 43 then lit 10 r
      else
        match (if c =? 48 then radixOfPrefix (hd 0 r) else None) with
        | Some radix => lit radix (tl r)
        | None => lit 10 t
        end
  end.

(** [n.toString(16)] for a non-negative integer. *)
Definition hexDigit (v : Z) : Z := if v <? 10 then 48 + v else 87 + v.

Fixpoint toHexFuel (fuel : nat) (n : Z) (acc : jsstring) : jsstring :=
  match fuel with
  | O => acc
  | S f =>
      let acc' := hexDigit (n mod 16) :: acc in
      if n / 16 =? 0 then acc' else toHexFuel f (n / 16) acc'
  end.

Definition toString16 (n : Z) : jsstring :=
  toHexFuel (S (Z.to_nat (Z.log2 n))) n [].

(** Decimal digits of the standard library's [uint] as code units; this is
    [n.toString()] for a non-negative bigint. *)
Fixpoint unitsOfUint (d : Decimal.uint) : jsstring :=
  match d with
  | Decimal.Nil => []
  | Decimal.D0 d => 48 :: unitsOfUint d
  | Decimal.D1 d => 49 :: unitsOfUint d
  | Decimal.D2 d => 50 :: unitsOfUint d
  | Decimal.D3 d => 51 :: unitsOfUint d
  | Decimal.D4 d => 52 :: unitsOfUint d
  | Decimal.D5 d => 53 :: unitsOfUint d
  | Decimal.D6 d => 54 :: unitsOfUint d
  | Decimal.D7 d => 55 :: unitsOfUint d
  | Decimal.D8 d => 56 :: unitsOfUint d
  | Decimal.D9 d => 57 :: unitsOfUint d
  end.

Definition bigintToString (n : Z) : jsstring :=
  unitsOfUint (N.to_uint (Z.to_N n)).

(** [TextEncoder.prototype.encode]: UTF-8 of the string, a surrogate pair
    giving one code point and a lone surrogate the replacement character. *)
Definition utf8CodePoint (cp : Z) : bytes :=
  if cp <? 128 then [cp]
  else if cp <? 2048 then [192 + cp / 64; 128 + cp mod 64]
  else if cp <? 65536 then
    [224 + cp / 4096; 128 + (cp / 64) mod 64; 128 + cp mod 64]
  else
    [240 + cp / 262144; 128 + (cp / 4096) mod 64;
     128 + (cp / 64) mod 64; 128 + cp mod 64].

Definition isHighSurrogate (c : Z) : bool := (55296 <=? c) && (c <=? 56319).
Definition isLowSurrogate (c : Z) : bool := (56320 <=? c) && (c <=? 57343).

Fixpoint TEXT_ENCODER_encode (s : jsstring) : bytes :=
  match s with
  | [] => []
  | c :: r =>
      if isHighSurrogate c then
        match r with
        | lo :: r' =>
            if isLowSurrogate lo then
              utf8CodePoint (65536 + (c - 55296) * 1024 + (lo - 56320))
                ++ TEXT_ENCODER_encode r'
            else utf8CodePoint 65533 ++ TEXT_ENCODER_encode r
        | [] => utf8CodePoint 65533
        end
      else if isLowSurrogate c then utf8CodePoint 65533 ++ TEXT_ENCODER_encode r
      else utf8CodePoint c ++ TEXT_ENCODER_encode r
  end.

(** ** The encoders of [page.tsx] *)

Definition AMOUNT_DECIMALS : Z := 18.
Definition CREATE_TOKEN_TYPE : jsstring := str "CreateTokenRequest".

(** [target.set(source, offset)] on a [Uint8Array]; the run time raises a
    [RangeError] when the source does not fit. *)
Definition Uint8Array_set (target source : bytes) (offset : nat)
  : result bytes :=
  if (offset + length source <=? length target)%nat
  then Ok (firstn offset target ++ source
             ++ skipn (offset + length source) target)
  else Throw RangeError.

Definition concatBytes (chunks : list bytes) : result bytes :=
  let length_ :=
    fold_left (fun sum chunk => (sum + length chunk)%nat) chunks 0%nat in
  let result_ := repeat 0 length_ in
  st <- fold_left
          (fun st chunk =>
             st' <- st ;;
             r <- Uint8Array_set (fst st') chunk (snd st') ;;
             Ok (r, (snd st' + length chunk)%nat))
          chunks (Ok (result_, 0%nat)) ;;
  Ok (fst st).

Definition bytesToHex (bs : bytes) : jsstring :=
  concat (map (fun value => padStart (toString16 value) 2 48) bs).

Definition hexToBytes (hex : jsstring) : result bytes :=
  let normalized := strip0xi hex in
  if negb (length normalized mod 2 =? 0)%nat
  then Throw (Error "Invalid hex string length")
  else
    Ok (map (fun i => ToUint8 (parseInt16
                                 (slice normalized (i * 2) (i * 2 + 2))))
            (seq 0 (length normalized / 2))).

(** [DataView.setUint32(0, value, true)]: [ToUint32] of the value, low byte
    first. *)
Definition encodeU32LE (value : Z) : bytes :=
  let v := value mod 4294967296 in
  [v mod 256; (v / 256) mod 256; (v / 65536) mod 256; (v / 16777216) mod 256].

Fixpoint encodeU128LE_loop (n : nat) (cursor : Z) : bytes :=
  match n with
  | O => []
  | S k =>
      ToUint8 (Int (Z.land cursor 255))
        :: encodeU128LE_loop k (Z.shiftr cursor 8)
  end.

Definition encodeU128LE (value : Z) : bytes := encodeU128LE_loop 16 value.

Definition encodeString (value : jsstring) : result bytes :=
  let bs := TEXT_ENCODER_encode value in
  concatBytes [encodeU32LE (Z.of_nat (length bs)); bs].

Definition parseAmountToU128 (input : jsstring) : result Z :=
  let raw := filter (fun c => negb (c =? 95)) (trim input) in
  match raw with
  | [] => Ok 0
  | _ =>
      if startsWith raw (str "-")
      then Throw (Error "Amount cannot be negative")
      else
        let parts :=
          split 46 (stripPlus raw) in
        let integerPartRaw := nth 0 parts [] in
        let fractionalRaw := nth 1 parts [] in
        let integerPart := orElse integerPartRaw (str "0") in
        if (Z.to_nat AMOUNT_DECIMALS <? length fractionalRaw)%nat
        then Throw (Error "Too many decimal places for Amount")
        else
          let fractionalPart :=
            padEnd fractionalRaw (Z.to_nat AMOUNT_DECIMALS) 48 in
          let digits :=
            orElse (dropWhile (Z.eqb 48) (integerPart ++ fractionalPart))
                   (str "0") in
          BigInt digits
  end.

Definition encodeAmount (input : jsstring) : result bytes :=
  v <- parseAmountToU128 input ;;
  Ok (encodeU128LE v).

Record CreateTokenPayload : Type := {
  owner : jsstring;
  name : jsstring;
  symbol : jsstring;
  decimals : number;
  supply : jsstring
}.

Record Form : Type := {
  form_tokenName : jsstring;
  form_tokenSymbol : jsstring;
  form_owner : jsstring;
  form_decimals : number;
  form_supply : jsstring
}.

(** Restriction of [String.prototype.toLowerCase] to strings of ASCII
    units, where it is the unit-wise map below. *)
Definition asciiLower (c : Z) : Z :=
  if (65 <=? c) && (c <=? 90) then c + 32 else c.
Definition isAscii (c : Z) : bool := (0 <=? c) && (c <? 128).

Section Encoders.

(** The case mapping of the run time (it depends on the Unicode tables). *)
Variable toLowerCase : jsstring -> jsstring.

(** The hash of [@noble/hashes] and the wallet's [personal_sign] request. *)
Variable keccak_256 : bytes -> bytes.
Variable personal_sign : jsstring -> jsstring -> result jsstring.

(** [s.trim().toLowerCase().replace(/^0x/, '')], the normalisation both
    [encodeAccountOwner] and [encodeEvmAccountSignature] apply. *)
Definition normalizedOwner (owner : jsstring) : jsstring :=
  strip0x (toLowerCase (trim owner)).

Definition encodeAccountOwner (owner : jsstring) : result bytes :=
  let normalized := strip0x (toLowerCase (trim owner)) in
  if (length normalized =? 40)%nat then
    b <- hexToBytes normalized ;; concatBytes [encodeU32LE 2; b]
  else if (length normalized =? 64)%nat then
    b <- hexToBytes normalized ;; concatBytes [encodeU32LE 1; b]
  else Throw (Error "Owner must be 20-byte or 32-byte hex").

Definition encodeTokenMetadata (name symbol : jsstring) (decimals : number)
  : result bytes :=
  n <- encodeString name ;;
  s <- encodeString symbol ;;
  concatBytes [n; s; [ToUint8 decimals]].

Definition encodeCreateTokenRequest (payload : CreateTokenPayload)
  : result bytes :=
  o <- encodeAccountOwner (owner payload) ;;
  m <- encodeTokenMetadata (name payload) (symbol payload)
         (decimals payload) ;;
  a <- encodeAmount (supply payload) ;;
  concatBytes [o; m; a].

Definition encodeEvmAccountSignature (signatureHex address : jsstring)
  : result bytes :=
  sigBytes <- hexToBytes signatureHex ;;
  if negb (length sigBytes =? 65)%nat
  then Throw (Error "EVM signature must be 65 bytes")
  else
    addressBytes <- hexToBytes (strip0x (toLowerCase (trim address))) ;;
    if negb (length addressBytes =? 20)%nat
    then Throw (Error "EVM address must be 20 bytes")
    else concatBytes [encodeU32LE 2; sigBytes; addressBytes].

(** The object literal [signWithMetaMask] passes to the payload encoder;
    [Number(form.decimals || 0)] turns [NaN] into zero. *)
Definition formPayload (owner_ : jsstring) (form : Form)
  : CreateTokenPayload :=
  {| owner := owner_;
     name := trim (form_tokenName form);
     symbol := trim (form_tokenSymbol form);
     decimals := match form_decimals form with
                 | NaN => Int 0
                 | d => d
                 end;
     supply := trim (form_supply form) |}.

(** [signWithMetaMask], up to the message handed to the wallet: the
    payload of the form, the domain prefix, the hash and its hex form. *)
Definition signingMessage (walletAddress : jsstring) (form : Form)
  : result jsstring :=
  match walletAddress with
  | [] => Throw (Error "Connect MetaMask first.")
  | _ =>
      let owner_ := walletAddress in
      payloadBytes <- encodeCreateTokenRequest (formPayload owner_ form) ;;
      let domain := TEXT_ENCODER_encode (CREATE_TOKEN_TYPE ++ str "::") in
      preimage <- concatBytes [domain; payloadBytes] ;;
      let hash := keccak_256 preimage in
      Ok (str "0x" ++ bytesToHex hash)
  end.

Definition signWithMetaMask (walletAddress : jsstring) (form : Form)
  : result jsstring :=
  messageHex <- signingMessage walletAddress form ;;
  rawSignature <- personal_sign messageHex walletAddress ;;
  envelope <- encodeEvmAccountSignature rawSignature walletAddress ;;
  Ok (bytesToHex envelope).

End Encoders.

(** ** Submitting the request *)

(** The fields of the form that only [submitToken] reads. *)
Record SubmitFields : Type := {
  form_signature : jsstring;
  form_chainId : jsstring;
  form_tokenFactory : jsstring;
  form_endpoint : jsstring
}.

(** The [variables] object of the GraphQL mutation. *)
Record Variables : Type := {
  var_owner : jsstring;
  var_name : jsstring;
  var_symbol : jsstring;
  var_decimals : number;
  var_supply : jsstring;
  var_sig : jsstring
}.

(** [s.replace(/\/$/, '')]. *)
Definition stripTrailingSlash (s : jsstring) : jsstring :=
  match rev s with
  | c :: r => if c =? 47 then rev r else s
  | [] => s
  end.

Section Submission.

Variable toLowerCase : jsstring -> jsstring.
Variable keccak_256 : bytes -> bytes.
Variable personal_sign : jsstring -> jsstring -> result jsstring.

(** [submitToken], from the choice of the signature to the URL and the
    variables handed to [fetch]: a pasted signature is used as it is, the
    wallet is asked only when none is pasted and a wallet is connected. *)
Definition submitRequest (walletAddress : jsstring) (form : Form)
  (fields : SubmitFields) : result (jsstring * Variables) :=
  signature <-
    match trim (form_signature fields) with
    | [] =>
        match walletAddress with
        | [] => Ok []
        | _ => signWithMetaMask toLowerCase keccak_256 personal_sign
                 walletAddress form
        end
    | pasted => Ok pasted
    end ;;
  match signature with
  | [] =>
      Throw (Error
        "Signature is required. Connect MetaMask or paste a signature hex.")
  | _ =>
      let endpoint := stripTrailingSlash (form_endpoint fields) in
      let url :=
        endpoint ++ str "/chains/" ++ form_chainId fields
          ++ str "/applications/" ++ form_tokenFactory fields in
      Ok (url,
          {| var_owner := trim (form_owner form);
             var_name := trim (form_tokenName form);
             var_symbol := trim (form_tokenSymbol form);
             var_decimals := match form_decimals form with
                             | NaN => Int 0
                             | d => d
                             end;
             var_supply := trim (form_supply form);
             var_sig := signature |})
  end.

End Submission.

(** ** Reading the wire format back *)

(** The integer a little-endian byte string stands for. *)
Definition decodeU128LE (bs : bytes) : Z :=
  fold_right (fun b acc => b + 256 * acc) 0 bs.

Definition stripTrailingPoint (s : jsstring) : jsstring :=
  match rev s with
  | c :: r => if c =? 46 then rev r else s
  | [] => s
  end.

(** Modelled from the spec: the decoder of the amount codec, which the
    front end does not contain.  The 128-bit integer is written in decimal,
    padded on the left to at least 19 digits, a point is inserted 18 digits
    from the end, and trailing zeros, then a trailing point, are removed. *)
Definition decodeAmount (bs : bytes) : jsstring :=
  let digits := padStart (bigintToString (decodeU128LE bs)) 19 48 in
  let k := (length digits - 18)%nat in
  let pointed := firstn k digits ++ [46] ++ skipn k digits in
  stripTrailingPoint (dropWhileEnd (Z.eqb 48) pointed).

(** Modelled from the spec: the normal form of a decimal amount string, the
    integer digits without leading zeros (a lone zero when none is left),
    then, when a non-zero fractional digit exists, a point and the
    fractional digits without trailing zeros. *)
Definition notPoint (c : Z) : bool := negb (c =? 46).
Definition integerDigits (s : jsstring) : jsstring := takeWhile notPoint s.
Definition fractionDigits (s : jsstring) : jsstring :=
  tl (dropWhile notPoint s).

Definition normalizedAmount (s : jsstring) : jsstring :=
  let ip := orElse (dropWhile (Z.eqb 48) (integerDigits s)) (str "0") in
  match dropWhileEnd (Z.eqb 48) (fractionDigits s) with
  | [] => ip
  | fp => ip ++ [46] ++ fp
  end.

(** A non-negative decimal amount string: decimal digits only before the
    first point and after it (hence at most one point), at most 18 of them
    after it. *)
Definition isDecimalAmount (s : jsstring) : bool :=
  forallb (isDigitOf 10) (integerDigits s)
  && forallb (isDigitOf 10) (fractionDigits s)
  && (length (fractionDigits s) <=? 18)%nat.

Definition isHexString (s : jsstring) : bool := forallb (isDigitOf 16) s.

(** The bytes a string of hexadecimal digit pairs stands for. *)
Fixpoint hexPairs (s : jsstring) : bytes :=
  match s with
  | a :: b :: r => digitsValue 16 [a; b] :: hexPairs r
  | _ => []
  end.

Definition isByte (b : Z) : Prop := 0 <= b < 256.

(** A UTF-16 code unit. *)
Definition validUnit (c : Z) : Prop := 0 <= c < 65536.

(** ** Auxiliary definitions *)

(** The tail of [parseAmountToU128], from the two segments on. *)
Definition stripZeros (s : jsstring) : jsstring :=
  orElse (dropWhile (Z.eqb 48) s) (str "0").

Definition amountOfParts (integerPartRaw fractionalRaw : jsstring)
  : result Z :=
  if (Z.to_nat AMOUNT_DECIMALS <? length fractionalRaw)%nat
  then Throw (Error "Too many decimal places for Amount")
  else
    BigInt (stripZeros
              (orElse integerPartRaw (str "0")
                 ++ padEnd fractionalRaw (Z.to_nat AMOUNT_DECIMALS) 48)).

(** One step of [digitsValue]. *)
Definition digitStep (radix : Z) (acc c : Z) : Z :=
  radix * acc + match digitValue radix c with Some v => v | None => 0 end.

Definition rawAmount (input : jsstring) : jsstring :=
  filter (fun c => negb (c =? 95)) (trim input).

Definition isLowerHexDigit (c : Z) : bool :=
  ((48 <=? c) && (c <=? 57)) || ((97 <=? c) && (c <=? 102)).

(** The two lower-case hexadecimal digits of a byte. *)
Definition hexOfByte (v : Z) : jsstring :=
  [hexDigit (v / 16); hexDigit (v mod 16)].

(** What [bytesToHex] has to do on one byte: write [hexOfByte], in
    lower-case digits that read back as the byte. *)
Definition hexOfByte_ok (v : Z) : bool :=
  (if list_eq_dec Z.eq_dec (padStart (toString16 v) 2 48) (hexOfByte v)
   then true else false)
  && forallb isLowerHexDigit (hexOfByte v)
  && (digitsValue 16 (hexOfByte v) =? v).

(** The loop of [hexToBytes], and its body on one pair. *)
Definition byteOfPair (pair : jsstring) : Z := ToUint8 (parseInt16 pair).

Definition hexLoop (normalized : jsstring) : bytes :=
  map (fun i => byteOfPair (slice normalized (i * 2) (i * 2 + 2)))
      (seq 0 (length normalized / 2)).

Definition evenLength (s : jsstring) : bool := (length s mod 2 =? 0)%nat.

(** ** Sample inputs *)

(** The case mapping instantiated on ASCII input. *)
Definition toLowerCaseAscii (s : jsstring) : jsstring := map asciiLower s.

Definition evmOwner : jsstring :=
  str "0xAAaaaaaaaaaaaaaaaaaaaaaaaaaaaaaaaaaaaaaa".

Definition samplePayload : CreateTokenPayload :=
  {| owner := evmOwner;
     name := str "Test";
     symbol := str "TST";
     decimals := Int 9;
     supply := str "800000000" |}.

Definition sampleForm : Form :=
  {| form_tokenName := str " Test";
     form_tokenSymbol := str "TST ";
     form_owner := evmOwner;
     form_decimals := Int 9;
     form_supply := str "800000000" |}.

(** An owner string with the prefix written twice, an owner and a
    signature without any hexadecimal digit, and a well-formed signature. *)
Definition doublePrefixOwner : jsstring := str "0x0x" ++ repeat 97 38.
Definition nonHexOwner : jsstring := repeat 122 40.
Definition nonHexSignature : jsstring := repeat 122 130.
Definition sampleSignature : jsstring := str "0x" ++ repeat 49 128 ++ str "1B".

(** A stand-in for the hash and for the wallet, to run the signing path. *)
Definition sampleHash (b : bytes) : bytes :=
  map (fun x => x mod 256) (firstn 32 (b ++ repeat 0 32)).
Definition sampleWallet (message account : jsstring) : result jsstring :=
  Ok sampleSignature.

(** The bytes of the domain prefix, ["CreateTokenRequest::"] in ASCII. *)
Definition domainBytes : bytes :=
  [67; 114; 101; 97; 116; 101; 84; 111; 107; 101; 110;
   82; 101; 113; 117; 101; 115; 116; 58; 58].

(** A form with a pasted signature and an amount no encoder accepts, and
    one with no signature. *)
Definition pastedFields : SubmitFields :=
  {| form_signature := str " 00ff ";
     form_chainId := str "761f";
     form_tokenFactory := str "ff08";
     form_endpoint := str "http://127.0.0.1:8080/" |}.

Definition unsignedFields : SubmitFields :=
  {| form_signature := str "  ";
     form_chainId := str "761f";
     form_tokenFactory := str "ff08";
     form_endpoint := str "http://127.0.0.1:8080" |}.

Definition badSupplyForm : Form :=
  {| form_tokenName := str "Test";
     form_tokenSymbol := str "TST";
     form_owner := evmOwner;
     form_decimals := NaN;
     form_supply := str "-5" |}.

(** * Properties *)

(** ** The error monad *)

Lemma bind_Ok {A B} (c : result A) (k : A -> result B) (b : B) :
  bind c k = Ok b -> exists a, c = Ok a /\ k a = Ok b.
Proof.
  destruct c as [a|e]; simpl; intros H; [exists a; auto | discriminate].
Qed.

(** ** [concatBytes] *)

Lemma total_length_concat (chunks : list bytes) (n : nat) :
  fold_left (fun sum chunk => (sum + length chunk)%nat) chunks n
  = (n + length (concat chunks))%nat.
Proof.
  revert n; induction chunks as [|c cs IH]; intros n; simpl.
  - lia.
  - rewrite IH, length_app. lia.
Qed.

Lemma Uint8Array_set_fits (done pad source : bytes) :
  (length source <= length pad)%nat ->
  Uint8Array_set (done ++ pad) source (length done)
  = Ok ((done ++ source) ++ skipn (length source) pad).
Proof.
  intros Hfit. unfold Uint8Array_set.
  replace (length done + length source <=? length (done ++ pad))%nat
    with true by (symmetry; apply Nat.leb_le; rewrite length_app; lia).
  rewrite firstn_app, Nat.sub_diag, firstn_all. simpl. rewrite app_nil_r.
  rewrite skipn_app, skipn_all2 by lia. simpl.
  replace (length done + length source - length done)%nat
    with (length source) by lia.
  now rewrite <- app_assoc.
Qed.

Lemma concatBytes_loop (chunks : list bytes) (done pad : bytes) :
  (length (concat chunks) <= length pad)%nat ->
  fold_left
    (fun st chunk =>
       st' <- st ;;
       r <- Uint8Array_set (fst st') chunk (snd st') ;;
       Ok (r, (snd st' + length chunk)%nat))
    chunks (Ok (done ++ pad, length done))
  = Ok ((done ++ concat chunks) ++ skipn (length (concat chunks)) pad,
        length (done ++ concat chunks)).
Proof.
  revert done pad; induction chunks as [|c cs IH]; intros done pad Hlen.
  - simpl. now rewrite app_nil_r.
  - simpl in *. rewrite length_app in Hlen.
    rewrite Uint8Array_set_fits by lia. simpl.
    rewrite <- length_app, IH by (rewrite length_skipn; lia).
    rewrite skipn_skipn, <- !app_assoc, !length_app.
    replace (length (concat cs) + length c)%nat
      with (length c + length (concat cs))%nat by lia.
    reflexivity.
Qed.

(** The copy loop never leaves the target and yields the plain
    concatenation of the chunks. *)
Lemma concatBytes_concat (chunks : list bytes) :
  concatBytes chunks = Ok (concat chunks).
Proof.
  unfold concatBytes. rewrite total_length_concat.
  pose proof (concatBytes_loop chunks []
                (repeat 0 (length (concat chunks)))) as Hloop.
  simpl in *. rewrite Hloop by (rewrite repeat_length; lia).
  simpl. rewrite skipn_all2 by (rewrite repeat_length; lia).
  now rewrite app_nil_r.
Qed.

(** ** Fixed-width integers *)

Lemma encodeU32LE_length (v : Z) : length (encodeU32LE v) = 4%nat.
Proof. reflexivity. Qed.

Lemma encodeU32LE_small (v : Z) :
  0 <= v < 256 -> encodeU32LE v = [v; 0; 0; 0].
Proof.
  intros Hv. unfold encodeU32LE.
  rewrite (Z.mod_small v 4294967296) by lia.
  rewrite (Z.mod_small v 256) by lia.
  rewrite !Z.div_small by lia. reflexivity.
Qed.

Lemma encodeU128LE_loop_length (n : nat) (c : Z) :
  length (encodeU128LE_loop n c) = n.
Proof. revert c; induction n; intros c; simpl; auto. Qed.

Lemma encodeU128LE_length (v : Z) : length (encodeU128LE v) = 16%nat.
Proof. apply encodeU128LE_loop_length. Qed.

Lemma land_255 (c : Z) : Z.land c 255 = c mod 256.
Proof. change 255 with (Z.ones 8). rewrite Z.land_ones by lia. reflexivity. Qed.

Lemma encodeU128LE_loop_bytes (n : nat) (c : Z) :
  Forall isByte (encodeU128LE_loop n c).
Proof.
  revert c; induction n; intros c; simpl; constructor; auto.
  unfold isByte. apply Z.mod_pos_bound. lia.
Qed.

Lemma encodeU128LE_loop_decode (n : nat) (c : Z) :
  decodeU128LE (encodeU128LE_loop n c) = c mod 2 ^ (8 * Z.of_nat n).
Proof.
  revert c; induction n as [|n IH]; intros c.
  - simpl. now rewrite Z.mod_1_r.
  - cbn [encodeU128LE_loop decodeU128LE fold_right ToUint8].
    fold (decodeU128LE (encodeU128LE_loop n (Z.shiftr c 8))).
    rewrite IH, land_255, Z.mod_mod by lia.
    rewrite Z.shiftr_div_pow2 by lia.
    replace (8 * Z.of_nat (S n)) with (8 + 8 * Z.of_nat n) by lia.
    rewrite Z.pow_add_r by lia.
    rewrite Z.rem_mul_r by lia. reflexivity.
Qed.

(** [encodeU128LE] is the 16-byte little-endian form of its argument
    reduced modulo [2^128]. *)
Lemma encodeU128LE_decode (v : Z) :
  decodeU128LE (encodeU128LE v) = v mod 2 ^ 128.
Proof. apply (encodeU128LE_loop_decode 16). Qed.

Lemma encodeU128LE_bytes (v : Z) : Forall isByte (encodeU128LE v).
Proof. apply encodeU128LE_loop_bytes. Qed.

(** Byte [i] of the loop is digit [i] of the cursor in base 256. *)
Lemma encodeU128LE_loop_nth (n : nat) (c : Z) (i : nat) :
  (i < n)%nat ->
  nth i (encodeU128LE_loop n c) 0 = (c / 256 ^ Z.of_nat i) mod 256.
Proof.
  revert c i; induction n as [|n IH]; intros c i Hi; [lia|].
  cbn [encodeU128LE_loop]. destruct i as [|i].
  - cbn [nth ToUint8]. rewrite land_255, Z.mod_mod by lia.
    change (256 ^ Z.of_nat 0) with 1. now rewrite Z.div_1_r.
  - cbn [nth]. rewrite IH by lia.
    rewrite Z.shiftr_div_pow2 by lia. change (2 ^ 8) with 256.
    rewrite Z.div_div by lia.
    now rewrite Nat2Z.inj_succ, Z.pow_succ_r by lia.
Qed.

(** ** Strings and metadata *)

Lemma encodeString_eq (value : jsstring) :
  encodeString value
  = Ok (encodeU32LE (Z.of_nat (length (TEXT_ENCODER_encode value)))
          ++ TEXT_ENCODER_encode value).
Proof.
  unfold encodeString. rewrite concatBytes_concat. cbn [concat].
  now rewrite app_nil_r.
Qed.

Lemma encodeTokenMetadata_eq (name symbol : jsstring) (decimals : number) :
  encodeTokenMetadata name symbol decimals
  = Ok ((encodeU32LE (Z.of_nat (length (TEXT_ENCODER_encode name)))
           ++ TEXT_ENCODER_encode name)
        ++ (encodeU32LE (Z.of_nat (length (TEXT_ENCODER_encode symbol)))
              ++ TEXT_ENCODER_encode symbol)
        ++ [ToUint8 decimals]).
Proof.
  unfold encodeTokenMetadata. rewrite !encodeString_eq. cbn [bind].
  rewrite concatBytes_concat. cbn [concat]. now rewrite app_nil_r.
Qed.

(** C9: whatever integer [decimals] is, the metadata encoder succeeds and
    ends its output with the single byte [decimals mod 256], after the two
    length-prefixed strings; 256 is written as 0 and 300 as 44. *)
Theorem encodeTokenMetadata_decimals_truncated :
  forall (name symbol : jsstring) (z : Z),
    exists n s,
      encodeString name = Ok n /\ encodeString symbol = Ok s /\
      encodeTokenMetadata name symbol (Int z) = Ok (n ++ s ++ [z mod 256]) /\
      0 <= z mod 256 < 256 /\
      encodeTokenMetadata name symbol (Int 256) = Ok (n ++ s ++ [0]) /\
      encodeTokenMetadata name symbol (Int 300) = Ok (n ++ s ++ [44]).
Proof.
  intros name symbol z.
  eexists; eexists.
  repeat split; try apply encodeString_eq; try apply encodeTokenMetadata_eq.
  all: apply Z.mod_pos_bound; lia.
Qed.

(** ** The request payload *)

Section Payload.

Variable toLowerCase : jsstring -> jsstring.

Lemma encodeAmount_Ok (input : jsstring) (a : bytes) :
  encodeAmount input = Ok a ->
  exists v, parseAmountToU128 input = Ok v /\ a = encodeU128LE v.
Proof.
  unfold encodeAmount. intros H. apply bind_Ok in H as (v & Hv & Ha).
  exists v. split; congruence.
Qed.

(** C1: when the owner and the amount encode, the payload is the owner
    encoding, then the metadata encoding (the length-prefixed UTF-8 name, the
    length-prefixed UTF-8 symbol, one byte for the decimals), then the
    16-byte little-endian amount, and nothing else. *)
Theorem encodeCreateTokenRequest_layout :
  forall (p : CreateTokenPayload) (o a : bytes),
    encodeAccountOwner toLowerCase (owner p) = Ok o ->
    encodeAmount (supply p) = Ok a ->
    encodeCreateTokenRequest toLowerCase p
    = Ok (o
          ++ ((encodeU32LE (Z.of_nat (length (TEXT_ENCODER_encode (name p))))
                 ++ TEXT_ENCODER_encode (name p))
              ++ (encodeU32LE
                    (Z.of_nat (length (TEXT_ENCODER_encode (symbol p))))
                    ++ TEXT_ENCODER_encode (symbol p))
              ++ [ToUint8 (decimals p)])
          ++ a)
    /\ length a = 16%nat
    /\ Forall isByte a
    /\ exists v, parseAmountToU128 (supply p) = Ok v
                 /\ decodeU128LE a = v mod 2 ^ 128.
Proof.
  intros p o a Ho Ha.
  destruct (encodeAmount_Ok _ _ Ha) as (v & Hv & ->).
  split; [|split; [|split]].
  - unfold encodeCreateTokenRequest.
    rewrite Ho, encodeTokenMetadata_eq, Ha. cbn [bind].
    rewrite concatBytes_concat. cbn [concat]. now rewrite app_nil_r.
  - apply encodeU128LE_length.
  - apply encodeU128LE_bytes.
  - exists v. split; [assumption | apply encodeU128LE_decode].
Qed.

End Payload.

Lemma encodeCreateTokenRequest_layout_witness :
  encodeCreateTokenRequest toLowerCaseAscii samplePayload
  = Ok ([2; 0; 0; 0] ++ repeat 170 20
        ++ [4; 0; 0; 0; 84; 101; 115; 116; 3; 0; 0; 0; 84; 83; 84; 9]
        ++ [0; 0; 0; 32; 151; 102; 64; 230; 150; 190; 149; 2; 0; 0; 0; 0]).
Proof.
  refine (proj1 (encodeCreateTokenRequest_layout toLowerCaseAscii
                   samplePayload ([2; 0; 0; 0] ++ repeat 170 20) _ _ _)).
  - vm_compute. reflexivity.
  - vm_compute. reflexivity.
Defined.

(** ** Lists: dropping and taking by a predicate *)

Section DropWhile.

Context {A : Type} (p : A -> bool).

Lemma dropWhile_none (l : list A) :
  (forall x, In x l -> p x = false) -> dropWhile p l = l.
Proof.
  destruct l as [|x r]; simpl; intros H; [reflexivity|].
  now rewrite (H x) by (left; reflexivity).
Qed.

Lemma dropWhile_all (l : list A) :
  (forall x, In x l -> p x = true) -> dropWhile p l = [].
Proof.
  induction l as [|x r IH]; simpl; intros H; [reflexivity|].
  rewrite (H x) by (left; reflexivity). apply IH.
  intros y Hy. apply H. now right.
Qed.

Lemma dropWhile_stop (l r : list A) (c : A) :
  p c = false -> dropWhile p (l ++ c :: r) = dropWhile p l ++ c :: r.
Proof.
  intros Hc. induction l as [|x l IH]; simpl.
  - now rewrite Hc.
  - destruct (p x); [apply IH | reflexivity].
Qed.

Lemma dropWhile_app_nonempty (l r : list A) :
  dropWhile p l <> [] -> dropWhile p (l ++ r) = dropWhile p l ++ r.
Proof.
  induction l as [|x l IH]; simpl; intros H; [congruence|].
  destruct (p x); [apply IH, H | reflexivity].
Qed.

Lemma dropWhile_app_empty (l r : list A) :
  dropWhile p l = [] -> dropWhile p (l ++ r) = dropWhile p r.
Proof.
  induction l as [|x l IH]; simpl; intros H; [reflexivity|].
  destruct (p x); [apply IH, H | discriminate].
Qed.

Lemma dropWhile_In (l : list A) (x : A) :
  In x (dropWhile p l) -> In x l.
Proof.
  induction l as [|y l IH]; simpl; [tauto|].
  destruct (p y); simpl; auto.
Qed.

Lemma dropWhile_head (l r : list A) (x : A) :
  dropWhile p l = x :: r -> p x = false.
Proof.
  induction l as [|y l IH]; simpl; [discriminate|].
  destruct (p y) eqn:Hy; [exact IH|]. intros H; injection H as -> _. exact Hy.
Qed.

Lemma dropWhile_idem (l : list A) :
  dropWhile p (dropWhile p l) = dropWhile p l.
Proof.
  destruct (dropWhile p l) as [|x r] eqn:E; [reflexivity|].
  simpl. now rewrite (dropWhile_head _ _ _ E).
Qed.

Lemma dropWhile_length (l : list A) :
  (length (dropWhile p l) <= length l)%nat.
Proof.
  induction l as [|y l IH]; simpl; [lia|]. destruct (p y); simpl; lia.
Qed.

Lemma take_drop_While (l : list A) :
  takeWhile p l ++ dropWhile p l = l.
Proof.
  induction l as [|y l IH]; simpl; [reflexivity|].
  destruct (p y); simpl; [now rewrite IH | reflexivity].
Qed.

Lemma takeWhile_all (l : list A) (x : A) :
  In x (takeWhile p l) -> p x = true.
Proof.
  induction l as [|y l IH]; simpl; [tauto|].
  destruct (p y) eqn:Hy; simpl; [|tauto].
  intros [<-|H]; auto.
Qed.

Lemma dropWhileEnd_app_empty (l r : list A) :
  dropWhileEnd p r = [] -> dropWhileEnd p (l ++ r) = dropWhileEnd p l.
Proof.
  unfold dropWhileEnd. intros H.
  assert (dropWhile p (rev r) = []) as E.
  { rewrite <- (rev_involutive (dropWhile p (rev r))), H. reflexivity. }
  now rewrite rev_app_distr, dropWhile_app_empty.
Qed.

Lemma dropWhileEnd_app_nonempty (l r : list A) :
  dropWhileEnd p r <> [] -> dropWhileEnd p (l ++ r) = l ++ dropWhileEnd p r.
Proof.
  unfold dropWhileEnd. intros H.
  rewrite rev_app_distr, dropWhile_app_nonempty.
  - now rewrite rev_app_distr, rev_involutive.
  - intros E. apply H. now rewrite E.
Qed.

Lemma dropWhileEnd_stop (l r : list A) (c : A) :
  p c = false -> dropWhileEnd p (l ++ c :: r) = l ++ c :: dropWhileEnd p r.
Proof.
  intros Hc. unfold dropWhileEnd.
  rewrite rev_app_distr. simpl. rewrite <- app_assoc. simpl.
  rewrite dropWhile_stop by assumption.
  rewrite rev_app_distr. simpl. rewrite rev_involutive, <- app_assoc.
  reflexivity.
Qed.

Lemma dropWhileEnd_all (l : list A) :
  (forall x, In x l -> p x = true) -> dropWhileEnd p l = [].
Proof.
  intros H. unfold dropWhileEnd. rewrite dropWhile_all; [reflexivity|].
  intros x Hx. apply H. now apply in_rev.
Qed.

Lemma dropWhileEnd_none (l : list A) :
  (forall x, In x l -> p x = false) -> dropWhileEnd p l = l.
Proof.
  intros H. unfold dropWhileEnd. rewrite dropWhile_none.
  - apply rev_involutive.
  - intros x Hx. apply H. now apply in_rev.
Qed.

Lemma dropWhileEnd_In (l : list A) (x : A) :
  In x (dropWhileEnd p l) -> In x l.
Proof.
  unfold dropWhileEnd. intros H. apply in_rev in H.
  apply dropWhile_In in H. now apply in_rev.
Qed.

Lemma dropWhileEnd_last (l r : list A) (x : A) :
  rev (dropWhileEnd p l) = x :: r -> p x = false.
Proof.
  unfold dropWhileEnd. rewrite rev_involutive. apply dropWhile_head.
Qed.

End DropWhile.

(** ** Digits *)

Ltac zbool :=
  repeat (match goal with
          | |- context [(?a <=? ?b)%Z] => destruct (Z.leb_spec a b)
          | |- context [(?a <? ?b)%Z] => destruct (Z.ltb_spec a b)
          | |- context [(?a =? ?b)%Z] => destruct (Z.eqb_spec a b)
          end; cbn [andb orb negb] in *);
  try reflexivity; try discriminate; try lia.

Lemma isDigitOf_10 (c : Z) : isDigitOf 10 c = true <-> 48 <= c <= 57.
Proof.
  unfold isDigitOf, digitValue. split.
  - zbool; intros; try discriminate; lia.
  - intros H. zbool.
Qed.

Lemma digitValue_10 (c : Z) :
  48 <= c <= 57 -> digitValue 10 c = Some (c - 48).
Proof. intros H. unfold digitValue. zbool. Qed.

Lemma digit_not_space (c : Z) : 46 <= c <= 57 -> isWhiteSpace c = false.
Proof. intros H. unfold isWhiteSpace. zbool. Qed.

Lemma digitsValue_fold (radix : Z) (s : jsstring) :
  digitsValue radix s = fold_left (digitStep radix) s 0.
Proof. reflexivity. Qed.

Lemma digitStep_acc (radix : Z) (s : jsstring) (acc : Z) :
  fold_left (digitStep radix) s acc
  = acc * radix ^ Z.of_nat (length s) + fold_left (digitStep radix) s 0.
Proof.
  revert acc; induction s as [|c s IH]; intros acc.
  - simpl. lia.
  - cbn [fold_left length]. rewrite IH, (IH (digitStep radix 0 c)).
    rewrite Nat2Z.inj_succ, Z.pow_succ_r by lia.
    unfold digitStep. ring.
Qed.

Lemma digitsValue_app (radix : Z) (a b : jsstring) :
  digitsValue radix (a ++ b)
  = digitsValue radix a * radix ^ Z.of_nat (length b) + digitsValue radix b.
Proof.
  rewrite !digitsValue_fold, fold_left_app. apply digitStep_acc.
Qed.

Lemma digitsValue_zeros (n : nat) : digitsValue 10 (repeat 48 n) = 0.
Proof.
  induction n as [|n IH]; [reflexivity|].
  change (repeat 48 (S n)) with ([48] ++ repeat 48 n).
  rewrite digitsValue_app, IH. reflexivity.
Qed.

Lemma digitsValue_dropWhile (s : jsstring) :
  digitsValue 10 (dropWhile (Z.eqb 48) s) = digitsValue 10 s.
Proof.
  induction s as [|c s IH]; [reflexivity|]. cbn [dropWhile].
  destruct (Z.eqb_spec 48 c) as [<-|Hc]; [|reflexivity].
  rewrite IH. change (48 :: s) with ([48] ++ s).
  rewrite digitsValue_app. reflexivity.
Qed.

Lemma digitsValue_stripZeros (s : jsstring) :
  digitsValue 10 (stripZeros s) = digitsValue 10 s.
Proof.
  unfold stripZeros, orElse. rewrite <- (digitsValue_dropWhile s).
  destruct (dropWhile (Z.eqb 48) s); reflexivity.
Qed.

Lemma digitsValue_nonneg (s : jsstring) :
  forallb (isDigitOf 10) s = true -> 0 <= digitsValue 10 s.
Proof.
  induction s as [|c s IH] using rev_ind; intros H;
    [change (digitsValue 10 []) with 0; lia|].
  rewrite forallb_app in H. apply andb_true_iff in H as [Hs Hc].
  simpl in Hc. rewrite andb_true_r in Hc. apply isDigitOf_10 in Hc.
  rewrite digitsValue_app. specialize (IH Hs).
  unfold digitsValue at 2. simpl. rewrite digitValue_10 by assumption.
  simpl length. lia.
Qed.

Lemma forallb_In {A} (p : A -> bool) (l : list A) (x : A) :
  forallb p l = true -> In x l -> p x = true.
Proof. intros H. now apply forallb_forall. Qed.

Lemma trim_none (s : jsstring) :
  (forall c, In c s -> isWhiteSpace c = false) -> trim s = s.
Proof.
  intros H. unfold trim, trimStart.
  rewrite (dropWhile_none _ s H). now apply dropWhileEnd_none.
Qed.

Lemma digits_trim (s : jsstring) :
  forallb (isDigitOf 10) s = true -> trim s = s.
Proof.
  intros H. apply trim_none. intros c Hc.
  apply digit_not_space.
  pose proof (proj1 (isDigitOf_10 c) (forallb_In _ _ _ H Hc)). lia.
Qed.

Lemma radixOfPrefix_digit (c : Z) : c <= 57 -> radixOfPrefix c = None.
Proof. intros H. unfold radixOfPrefix. zbool. Qed.

(** [BigInt] reads a non-empty run of decimal digits as its value. *)
Lemma BigInt_digits (s : jsstring) :
  forallb (isDigitOf 10) s = true -> s <> [] ->
  BigInt s = Ok (digitsValue 10 s).
Proof.
  intros H Hne. unfold BigInt. rewrite (digits_trim s H).
  destruct s as [|c r]; [congruence|].
  pose proof H as H'. simpl in H'. apply andb_true_iff in H' as [Hc Hr].
  apply isDigitOf_10 in Hc.
  destruct (Z.eqb_spec c 45); [lia|].
  destruct (Z.eqb_spec c 43); [lia|].
  assert (radixOfPrefix (hd 0 r) = None) as ->.
  { apply radixOfPrefix_digit. destruct r as [|c' r']; simpl; [lia|].
    simpl in Hr. apply andb_true_iff in Hr as [Hc' _].
    apply isDigitOf_10 in Hc'. lia. }
  assert (allDigits 10 (c :: r) = true) as -> by exact H.
  destruct (c =? 48); reflexivity.
Qed.

Lemma stripZeros_digits (s : jsstring) :
  forallb (isDigitOf 10) s = true ->
  forallb (isDigitOf 10) (stripZeros s) = true /\ stripZeros s <> [].
Proof.
  intros H. unfold stripZeros, orElse.
  destruct (dropWhile (Z.eqb 48) s) as [|c r] eqn:E.
  - split; [reflexivity | discriminate].
  - split; [|discriminate].
    apply forallb_forall. intros x Hx. rewrite <- E in Hx.
    apply dropWhile_In in Hx. eapply forallb_In; eauto.
Qed.

(** ** Decimal notation of big integers *)

Lemma digitStep_digit (acc c : Z) :
  48 <= c <= 57 -> digitStep 10 acc c = 10 * acc + (c - 48).
Proof. intros H. unfold digitStep. now rewrite digitValue_10. Qed.

Lemma of_uint_acc_value (d : Decimal.uint) (acc : positive) :
  Z.pos (Pos.of_uint_acc d acc)
  = fold_left (digitStep 10) (unitsOfUint d) (Z.pos acc).
Proof.
  revert acc; induction d; intros acc;
    cbn [Pos.of_uint_acc unitsOfUint fold_left];
    [reflexivity | rewrite IHd, digitStep_digit by lia; f_equal; lia ..].
Qed.

Lemma of_uint_value (d : Decimal.uint) :
  Z.of_N (N.of_uint d) = digitsValue 10 (unitsOfUint d).
Proof.
  rewrite digitsValue_fold. unfold N.of_uint.
  induction d; cbn [Pos.of_uint unitsOfUint fold_left Z.of_N];
    [reflexivity | exact IHd | rewrite of_uint_acc_value; reflexivity ..].
Qed.

Lemma unitsOfUint_digits (d : Decimal.uint) :
  forallb (isDigitOf 10) (unitsOfUint d) = true.
Proof. induction d; simpl; auto. Qed.

Lemma unitsOfUint_surj (s : jsstring) :
  forallb (isDigitOf 10) s = true -> exists d, unitsOfUint d = s.
Proof.
  induction s as [|c s IH]; intros H.
  - exists Decimal.Nil. reflexivity.
  - simpl in H. apply andb_true_iff in H as [Hc Hs].
    destruct (IH Hs) as [d <-]. apply isDigitOf_10 in Hc.
    assert (c = 48 \/ c = 49 \/ c = 50 \/ c = 51 \/ c = 52 \/ c = 53
            \/ c = 54 \/ c = 55 \/ c = 56 \/ c = 57) as Hcase by lia.
    repeat destruct Hcase as [-> | Hcase]; [| | | | | | | | |subst c].
    + now exists (Decimal.D0 d).
    + now exists (Decimal.D1 d).
    + now exists (Decimal.D2 d).
    + now exists (Decimal.D3 d).
    + now exists (Decimal.D4 d).
    + now exists (Decimal.D5 d).
    + now exists (Decimal.D6 d).
    + now exists (Decimal.D7 d).
    + now exists (Decimal.D8 d).
    + now exists (Decimal.D9 d).
Qed.

Lemma unitsOfUint_nzhead (d : Decimal.uint) :
  unitsOfUint (Decimal.nzhead d) = dropWhile (Z.eqb 48) (unitsOfUint d).
Proof. induction d; simpl; auto. Qed.

Lemma unitsOfUint_nil (d : Decimal.uint) :
  unitsOfUint d = [] -> d = Decimal.Nil.
Proof. destruct d; simpl; intros H; [reflexivity | discriminate ..]. Qed.

Lemma unitsOfUint_unorm (d : Decimal.uint) :
  unitsOfUint (Decimal.unorm d) = stripZeros (unitsOfUint d).
Proof.
  unfold Decimal.unorm, stripZeros, orElse. rewrite <- unitsOfUint_nzhead.
  destruct (Decimal.nzhead d); reflexivity.
Qed.

(** Printing the value of a run of decimal digits gives the run back
    without its leading zeros. *)
Lemma bigintToString_digitsValue (s : jsstring) :
  forallb (isDigitOf 10) s = true ->
  bigintToString (digitsValue 10 s) = stripZeros s.
Proof.
  intros H. destruct (unitsOfUint_surj s H) as [d <-].
  unfold bigintToString.
  rewrite <- of_uint_value, N2Z.id, DecimalN.Unsigned.to_of.
  apply unitsOfUint_unorm.
Qed.

(** ** The amount parser, segment by segment *)

Lemma parseAmountToU128_unfold (input : jsstring) :
  parseAmountToU128 input
  = match rawAmount input with
    | [] => Ok 0
    | _ =>
        if startsWith (rawAmount input) (str "-")
        then Throw (Error "Amount cannot be negative")
        else amountOfParts
               (nth 0 (split 46 (stripPlus (rawAmount input))) [])
               (nth 1 (split 46 (stripPlus (rawAmount input))) [])
    end.
Proof. reflexivity. Qed.

Lemma split_first (s : jsstring) :
  nth 0 (split 46 s) [] = integerDigits s.
Proof.
  unfold integerDigits, notPoint.
  induction s as [|c s IH]; [reflexivity|]. cbn [split takeWhile].
  destruct (c =? 46); [reflexivity|]. cbn [negb].
  rewrite <- IH. destruct (split 46 s); reflexivity.
Qed.

Lemma takeWhile_every {A} (p : A -> bool) (l : list A) :
  (forall x, In x l -> p x = true) -> takeWhile p l = l.
Proof.
  induction l as [|x l IH]; intros H; [reflexivity|]. simpl.
  rewrite (H x) by (left; reflexivity). f_equal. apply IH.
  intros y Hy. apply H. now right.
Qed.

Lemma split_second (s : jsstring) :
  (forall c, In c (fractionDigits s) -> c <> 46) ->
  nth 1 (split 46 s) [] = fractionDigits s.
Proof.
  unfold fractionDigits, notPoint.
  induction s as [|c s IH]; intros H; [reflexivity|].
  cbn [split dropWhile] in *.
  destruct (Z.eqb_spec c 46) as [->|Hc]; cbn [negb tl] in *.
  - change (nth 1 ([] :: split 46 s) []) with (nth 0 (split 46 s) []).
    rewrite split_first. apply takeWhile_every.
    intros x Hx. unfold notPoint. specialize (H x Hx).
    destruct (Z.eqb_spec x 46); [contradiction | reflexivity].
  - rewrite <- (IH H). destruct (split 46 s) as [|seg segs]; reflexivity.
Qed.

Lemma digits_raw (s : jsstring) :
  (forall c, In c s -> 46 <= c <= 57) -> rawAmount s = s.
Proof.
  intros H. unfold rawAmount. rewrite trim_none.
  - apply forallb_filter_id. apply forallb_forall. intros c Hc.
    specialize (H c Hc). destruct (Z.eqb_spec c 95); [lia | reflexivity].
  - intros c Hc. apply digit_not_space. auto.
Qed.

Lemma decimal_chars (s : jsstring) :
  isDecimalAmount s = true -> forall c, In c s -> 46 <= c <= 57.
Proof.
  unfold isDecimalAmount. intros H c Hc.
  apply andb_true_iff in H as [H _]. apply andb_true_iff in H as [Hi Hf].
  unfold integerDigits, fractionDigits in *.
  rewrite <- (take_drop_While notPoint s) in Hc.
  apply in_app_or in Hc as [Hc|Hc].
  - pose proof (proj1 (isDigitOf_10 c) (forallb_In _ _ _ Hi Hc)). lia.
  - destruct (dropWhile notPoint s) as [|x r] eqn:E; [contradiction|].
    destruct Hc as [<-|Hc].
    + apply dropWhile_head in E. unfold notPoint in E.
      destruct (Z.eqb_spec x 46); [lia | discriminate].
    + pose proof (proj1 (isDigitOf_10 c) (forallb_In _ _ _ Hf Hc)). lia.
Qed.

Lemma startsWith_minus (c : Z) (r : jsstring) :
  c <> 45 -> startsWith (c :: r) (str "-") = false.
Proof.
  intros H. unfold startsWith.
  destruct (list_eq_dec Z.eq_dec _ _) as [E|E]; [|reflexivity].
  simpl in E. injection E as E. contradiction.
Qed.

(** A decimal amount string goes through all the guards; its value is
    that of the integer digits followed by the fractional digits padded to
    18 places. *)
Lemma parseAmountToU128_decimal (s : jsstring) :
  isDecimalAmount s = true ->
  parseAmountToU128 s
  = Ok (digitsValue 10
          (orElse (integerDigits s) (str "0")
           ++ padEnd (fractionDigits s) 18 48))
  /\ forallb (isDigitOf 10)
       (orElse (integerDigits s) (str "0")
        ++ padEnd (fractionDigits s) 18 48) = true.
Proof.
  intros H. pose proof (decimal_chars s H) as Hch.
  unfold isDecimalAmount in H.
  apply andb_true_iff in H as [H Hlen]. apply andb_true_iff in H as [Hi Hf].
  apply Nat.leb_le in Hlen.
  assert (forallb (isDigitOf 10)
            (orElse (integerDigits s) (str "0")
             ++ padEnd (fractionDigits s) 18 48) = true) as Hall.
  { rewrite forallb_app. apply andb_true_iff. split.
    - destruct (integerDigits s); [reflexivity | assumption].
    - unfold padEnd. rewrite forallb_app, Hf. simpl.
      apply forallb_forall. intros x Hx. apply repeat_spec in Hx. now subst. }
  split; [|exact Hall].
  rewrite parseAmountToU128_unfold, (digits_raw s Hch).
  destruct s as [|c r] eqn:Es.
  - reflexivity.
  - rewrite <- Es in *.
    assert (46 <= c <= 57) as Hc by (apply Hch; subst s; now left).
    assert (startsWith s (str "-") = false) as ->
        by (subst s; apply startsWith_minus; lia).
    assert (stripPlus s = s) as ->
        by (subst s; unfold stripPlus; destruct (Z.eqb_spec c 43);
            [lia | reflexivity]).
    rewrite split_first, split_second.
    + unfold amountOfParts.
      replace (Z.to_nat AMOUNT_DECIMALS) with 18%nat by reflexivity.
      replace (18 <? length (fractionDigits s))%nat with false
        by (symmetry; apply Nat.ltb_ge; lia).
      destruct (stripZeros_digits _ Hall) as [Hd Hne].
      rewrite BigInt_digits by assumption.
      now rewrite digitsValue_stripZeros.
    + intros x Hx.
      pose proof (proj1 (isDigitOf_10 x) (forallb_In _ _ _ Hf Hx)). lia.
Qed.

Lemma digit_string (s : jsstring) :
  forallb (isDigitOf 10) s = true ->
  integerDigits s = s /\ fractionDigits s = [].
Proof.
  intros H.
  assert (forall x, In x s -> notPoint x = true) as Hnp.
  { intros x Hx. unfold notPoint.
    pose proof (proj1 (isDigitOf_10 x) (forallb_In _ _ _ H Hx)).
    destruct (Z.eqb_spec x 46); [lia | reflexivity]. }
  unfold integerDigits, fractionDigits. split.
  - now apply takeWhile_every.
  - now rewrite dropWhile_all.
Qed.

(** C8 (amended): the empty string and ["0"] encode to 16 zero bytes; a
    string of decimal digits parses to its value times [10^18], and when
    that number is below [2^128] the encoder returns its little-endian
    128-bit encoding: 16 bytes, byte [i] being digit [i] of the number in
    base 256; ["800000000"] encodes [800000000 * 10^18] in this way. *)
Theorem encodeAmount_integer_digits :
  encodeAmount (str "0") = Ok (repeat 0 16)
  /\ encodeAmount [] = Ok (repeat 0 16)
  /\ encodeAmount (str "800000000")
     = Ok [0; 0; 0; 32; 151; 102; 64; 230; 150; 190; 149; 2; 0; 0; 0; 0]
  /\ decodeU128LE
       [0; 0; 0; 32; 151; 102; 64; 230; 150; 190; 149; 2; 0; 0; 0; 0]
     = 800000000 * 10 ^ 18
  /\ forall ds : jsstring,
       forallb (isDigitOf 10) ds = true ->
       parseAmountToU128 ds = Ok (digitsValue 10 ds * 10 ^ 18)
       /\ 0 <= digitsValue 10 ds * 10 ^ 18
       /\ (digitsValue 10 ds * 10 ^ 18 < 2 ^ 128 ->
           exists a,
             encodeAmount ds = Ok a
             /\ length a = 16%nat
             /\ Forall isByte a
             /\ decodeU128LE a = digitsValue 10 ds * 10 ^ 18
             /\ forall i, (i < 16)%nat ->
                   nth i a 0
                   = (digitsValue 10 ds * 10 ^ 18 / 256 ^ Z.of_nat i)
                     mod 256).
Proof.
  split; [vm_compute; reflexivity|].
  split; [vm_compute; reflexivity|].
  split; [vm_compute; reflexivity|].
  split; [vm_compute; reflexivity|].
  intros ds H.
  assert (parseAmountToU128 ds = Ok (digitsValue 10 ds * 10 ^ 18)) as Hp.
  { destruct (digit_string ds H) as [Hi Hf].
    assert (isDecimalAmount ds = true) as Hd
        by (unfold isDecimalAmount; rewrite Hi, Hf, H; reflexivity).
    destruct (parseAmountToU128_decimal ds Hd) as [-> _].
    rewrite Hi, Hf. f_equal.
    change (padEnd [] 18 48) with (repeat 48 18).
    destruct ds as [|c r]; [reflexivity|].
    rewrite digitsValue_app, digitsValue_zeros, repeat_length.
    cbn [orElse]. simpl Z.of_nat. lia. }
  pose proof (digitsValue_nonneg ds H) as Hpos.
  split; [exact Hp|]. split; [lia|].
  intros Hlt. exists (encodeU128LE (digitsValue 10 ds * 10 ^ 18)).
  split; [unfold encodeAmount; now rewrite Hp|].
  split; [apply encodeU128LE_length|].
  split; [apply encodeU128LE_bytes|]. split.
  - rewrite encodeU128LE_decode. apply Z.mod_small. lia.
  - intros i Hi. now apply encodeU128LE_loop_nth.
Qed.

Lemma encodeAmount_integer_digits_witness :
  exists a,
    encodeAmount (str "42") = Ok a
    /\ length a = 16%nat
    /\ Forall isByte a
    /\ decodeU128LE a = digitsValue 10 (str "42") * 10 ^ 18
    /\ forall i, (i < 16)%nat ->
          nth i a 0
          = (digitsValue 10 (str "42") * 10 ^ 18 / 256 ^ Z.of_nat i)
            mod 256.
Proof.
  pose proof (proj2 (proj2 (proj2 (proj2 encodeAmount_integer_digits)))
                (str "42") eq_refl) as (_ & _ & H).
  apply H. vm_compute. reflexivity.
Defined.

(** C8, as stated, fails beyond the 128-bit range: the digits of [2^110]
    form a string of decimal digits whose value times [10^18] is a multiple
    of [2^128]; it encodes to the 16 zero bytes of ["0"], which are not the
    encoding of that value. *)
Lemma encodeAmount_integer_digits_overflow :
  forallb (isDigitOf 10) (str "1298074214633706907132624082305024") = true
  /\ digitsValue 10 (str "1298074214633706907132624082305024") = 2 ^ 110
  /\ encodeAmount (str "1298074214633706907132624082305024")
     = Ok (repeat 0 16)
  /\ exists a,
       encodeAmount (str "1298074214633706907132624082305024") = Ok a
       /\ decodeU128LE a
          <> digitsValue 10 (str "1298074214633706907132624082305024")
             * 10 ^ 18.
Proof.
  split; [reflexivity|]. split; [vm_compute; reflexivity|].
  split; [vm_compute; reflexivity|].
  eexists. split; [vm_compute; reflexivity|].
  vm_compute. discriminate.
Qed.

(** ** Decoding an amount *)

Lemma all_equal_repeat (c : Z) (l : jsstring) :
  (forall x, In x l -> x = c) -> l = repeat c (length l).
Proof.
  induction l as [|x l IH]; intros H; [reflexivity|]. simpl.
  rewrite (H x) by (left; reflexivity). f_equal. apply IH.
  intros y Hy. apply H. now right.
Qed.

Lemma leading_zeros (l : jsstring) :
  l = repeat 48 (length l - length (dropWhile (Z.eqb 48) l))
        ++ dropWhile (Z.eqb 48) l.
Proof.
  pose proof (take_drop_While (Z.eqb 48) l) as E.
  assert (takeWhile (Z.eqb 48) l
          = repeat 48 (length (takeWhile (Z.eqb 48) l))) as Hz.
  { apply all_equal_repeat. intros x Hx. apply takeWhile_all in Hx.
    symmetry. now apply Z.eqb_eq. }
  assert (length l = length (takeWhile (Z.eqb 48) l)
                     + length (dropWhile (Z.eqb 48) l))%nat as Hl
      by (rewrite <- length_app, E; reflexivity).
  replace (length l - length (dropWhile (Z.eqb 48) l))%nat
    with (length (takeWhile (Z.eqb 48) l)) by lia.
  now rewrite <- Hz, E.
Qed.

(** Padding the printed value back to 19 digits restores the zeros that
    parsing dropped: what is left of the last 18 digits is the integer part
    without leading zeros. *)
Lemma padStart_stripZeros (ip fpp : jsstring) :
  length fpp = 18%nat ->
  padStart (stripZeros (orElse ip (str "0") ++ fpp)) 19 48
  = stripZeros ip ++ fpp.
Proof.
  intros Hlen. unfold stripZeros.
  destruct (dropWhile (Z.eqb 48) ip) as [|y ys] eqn:E.
  - assert (dropWhile (Z.eqb 48) (orElse ip (str "0") ++ fpp)
            = dropWhile (Z.eqb 48) fpp) as Hd.
    { apply dropWhile_app_empty. destruct ip; [reflexivity | exact E]. }
    rewrite Hd. cbn [orElse].
    pose proof (leading_zeros fpp) as Hz.
    pose proof (dropWhile_length (Z.eqb 48) fpp) as Hle.
    rewrite Hlen in Hz, Hle.
    destruct (dropWhile (Z.eqb 48) fpp) as [|z zs] eqn:Ez.
    + rewrite Hz. reflexivity.
    + cbn [orElse]. unfold padStart. rewrite Hz.
      replace (19 - length (z :: zs))%nat
        with (S (18 - length (z :: zs))) by lia.
      reflexivity.
  - assert (orElse ip (str "0") = ip) as ->
        by (destruct ip; [discriminate | reflexivity]).
    rewrite dropWhile_app_nonempty by (rewrite E; discriminate).
    rewrite E. cbn [orElse app]. unfold padStart.
    assert (19 - length (y :: ys ++ fpp) = 0)%nat as ->
        by (cbn [length]; rewrite length_app; lia).
    reflexivity.
Qed.

Lemma stripTrailingPoint_point (s : jsstring) :
  stripTrailingPoint (s ++ [46]) = s.
Proof.
  unfold stripTrailingPoint. rewrite rev_app_distr. simpl.
  apply rev_involutive.
Qed.

Lemma stripTrailingPoint_digit (s f : jsstring) :
  f <> [] -> (forall x, In x f -> x <> 46) ->
  stripTrailingPoint (s ++ f) = s ++ f.
Proof.
  intros Hne Hf. unfold stripTrailingPoint. rewrite rev_app_distr.
  destruct (rev f) as [|c r] eqn:E.
  - exfalso. apply Hne. now rewrite <- (rev_involutive f), E.
  - simpl. assert (In c f) as Hc by (apply in_rev; rewrite E; now left).
    specialize (Hf c Hc). destruct (Z.eqb_spec c 46); [contradiction|].
    reflexivity.
Qed.

Lemma decode_pointed (ni fp : jsstring) :
  forallb (isDigitOf 10) fp = true -> (length fp <= 18)%nat ->
  let padded := ni ++ padEnd fp 18 48 in
  let k := (length padded - 18)%nat in
  stripTrailingPoint
    (dropWhileEnd (Z.eqb 48) (firstn k padded ++ [46] ++ skipn k padded))
  = match dropWhileEnd (Z.eqb 48) fp with
    | [] => ni
    | f => ni ++ [46] ++ f
    end.
Proof.
  intros Hf Hlen padded k.
  assert (length (padEnd fp 18 48) = 18%nat) as Hp
      by (unfold padEnd; rewrite length_app, repeat_length; lia).
  assert (k = length ni) as ->
      by (unfold k, padded; rewrite length_app; lia).
  unfold padded.
  rewrite firstn_app, Nat.sub_diag, firstn_all, skipn_app, Nat.sub_diag,
    skipn_all. simpl firstn. simpl skipn. rewrite app_nil_r. cbn [app].
  unfold padEnd.
  replace (ni ++ 46 :: fp ++ repeat 48 (18 - length fp))
    with ((ni ++ 46 :: fp) ++ repeat 48 (18 - length fp))
    by (rewrite <- app_assoc; reflexivity).
  rewrite dropWhileEnd_app_empty
    by (apply dropWhileEnd_all; intros x Hx; apply repeat_spec in Hx;
        subst; reflexivity).
  rewrite dropWhileEnd_stop by reflexivity.
  destruct (dropWhileEnd (Z.eqb 48) fp) as [|c f] eqn:E.
  - apply stripTrailingPoint_point.
  - change (ni ++ 46 :: c :: f) with (ni ++ [46] ++ c :: f).
    rewrite app_assoc. apply stripTrailingPoint_digit.
    + discriminate.
    + intros x Hx. rewrite <- E in Hx. apply dropWhileEnd_In in Hx.
      pose proof (proj1 (isDigitOf_10 x) (forallb_In _ _ _ Hf Hx)). lia.
Qed.

(** C5 (amended): a decimal amount string with at most 18 fractional
    digits is accepted by the encoder, its unscaled value is not negative,
    and when that value is below [2^128] decoding the 16 bytes gives back
    the normal form of the string. *)
Theorem amount_round_trip :
  forall s : jsstring,
    isDecimalAmount s = true ->
    exists v,
      parseAmountToU128 s = Ok v /\ 0 <= v
      /\ encodeAmount s = Ok (encodeU128LE v)
      /\ (v < 2 ^ 128 ->
          decodeAmount (encodeU128LE v) = normalizedAmount s).
Proof.
  intros s H.
  destruct (parseAmountToU128_decimal s H) as [Hp Hall].
  pose proof (digitsValue_nonneg _ Hall) as Hpos.
  unfold isDecimalAmount in H.
  apply andb_true_iff in H as [H Hlen]. apply andb_true_iff in H as [_ Hf].
  apply Nat.leb_le in Hlen.
  eexists. split; [exact Hp|]. split; [exact Hpos|]. split.
  - unfold encodeAmount. now rewrite Hp.
  - intros Hlt. unfold decodeAmount.
    rewrite encodeU128LE_decode, Z.mod_small by lia.
    rewrite bigintToString_digitsValue by exact Hall.
    rewrite padStart_stripZeros
      by (unfold padEnd; rewrite length_app, repeat_length; lia).
    apply (decode_pointed (stripZeros (integerDigits s))
             (fractionDigits s) Hf Hlen).
Qed.

Lemma amount_round_trip_witness :
  exists v,
    parseAmountToU128 (str "007.50") = Ok v /\ 0 <= v
    /\ encodeAmount (str "007.50") = Ok (encodeU128LE v)
    /\ (v < 2 ^ 128 ->
        decodeAmount (encodeU128LE v) = normalizedAmount (str "007.50")).
Proof.
  apply (amount_round_trip (str "007.50")). vm_compute. reflexivity.
Defined.

Example amount_round_trip_sample :
  parseAmountToU128 (str "007.50") = Ok 7500000000000000000
  /\ decodeAmount (encodeU128LE 7500000000000000000) = str "7.5"
  /\ normalizedAmount (str "007.50") = str "7.5".
Proof. vm_compute. repeat split. Qed.

(** C5, as stated, fails above the 128-bit range: ten to the 21 is a
    decimal amount string, its 16 bytes do not decode to it. *)
Lemma amount_round_trip_overflow :
  isDecimalAmount (str "1000000000000000000000") = true
  /\ exists a,
       encodeAmount (str "1000000000000000000000") = Ok a
       /\ decodeAmount a <> normalizedAmount (str "1000000000000000000000").
Proof.
  split; [reflexivity|].
  eexists. split; [vm_compute; reflexivity|].
  vm_compute. discriminate.
Qed.

(** ** Hexadecimal strings *)

Lemma hexToBytes_unfold (hex : jsstring) :
  hexToBytes hex
  = if negb (evenLength (strip0xi hex))
    then Throw (Error "Invalid hex string length")
    else Ok (hexLoop (strip0xi hex)).
Proof. reflexivity. Qed.

Lemma list_pair_ind {A} (P : list A -> Prop) :
  P [] -> (forall a, P [a]) ->
  (forall a b r, P r -> P (a :: b :: r)) ->
  forall l, P l.
Proof.
  intros H0 H1 H2 l.
  assert (P l /\ forall x, P (x :: l)) as [H _]; [|exact H].
  induction l as [|y l [IH1 IH2]]; split; auto.
Qed.

Lemma evenLength_cons2 (a b : Z) (r : jsstring) :
  evenLength (a :: b :: r) = evenLength r.
Proof.
  unfold evenLength. cbn [length].
  replace (S (S (length r))) with (length r + 1 * 2)%nat by lia.
  now rewrite Nat.Div0.mod_add.
Qed.

Lemma hexLoop_cons2 (a b : Z) (r : jsstring) :
  hexLoop (a :: b :: r) = byteOfPair [a; b] :: hexLoop r.
Proof.
  unfold hexLoop. cbn [length].
  replace (S (S (length r))) with (1 * 2 + length r)%nat by lia.
  rewrite Nat.div_add_l by lia.
  change (seq 0 (1 + length r / 2)) with (0%nat :: seq 1 (length r / 2)).
  cbn [map]. f_equal.
  rewrite <- seq_shift, map_map. apply map_ext. intros i.
  unfold slice.
  replace (S i * 2)%nat with (S (S (i * 2))) by lia.
  replace (S (S (i * 2)) + 2 - S (S (i * 2)))%nat
    with (i * 2 + 2 - i * 2)%nat by lia.
  reflexivity.
Qed.

Lemma hexLoop_length (s : jsstring) :
  length (hexLoop s) = (length s / 2)%nat.
Proof. unfold hexLoop. now rewrite length_map, length_seq. Qed.

Lemma byteOfPair_byte (pair : jsstring) : isByte (byteOfPair pair).
Proof.
  unfold byteOfPair, ToUint8, isByte.
  destruct (parseInt16 pair); [lia | apply Z.mod_pos_bound; lia].
Qed.

Lemma hexLoop_bytes (s : jsstring) : Forall isByte (hexLoop s).
Proof.
  unfold hexLoop. apply Forall_forall. intros x Hx.
  apply in_map_iff in Hx as (i & <- & _). apply byteOfPair_byte.
Qed.

(** The only failure of the decoder is the odd length; on success there is
    one byte for every two units left after the optional prefix. *)
Lemma hexToBytes_Ok (hex : jsstring) (bs : bytes) :
  hexToBytes hex = Ok bs <->
  evenLength (strip0xi hex) = true /\ bs = hexLoop (strip0xi hex).
Proof.
  rewrite hexToBytes_unfold.
  destruct (evenLength (strip0xi hex)); cbn [negb]; split.
  - intros H; injection H as <-. auto.
  - intros [_ ->]. reflexivity.
  - discriminate.
  - intros [H _]. discriminate.
Qed.

Lemma hexToBytes_odd (hex : jsstring) :
  evenLength (strip0xi hex) = false ->
  hexToBytes hex = Throw (Error "Invalid hex string length").
Proof. intros H. rewrite hexToBytes_unfold, H. reflexivity. Qed.

Lemma hexToBytes_length (hex : jsstring) (bs : bytes) :
  hexToBytes hex = Ok bs ->
  (length (strip0xi hex) = 2 * length bs)%nat /\ Forall isByte bs.
Proof.
  intros H. apply hexToBytes_Ok in H as [He ->]. split.
  - rewrite hexLoop_length. unfold evenLength in He.
    apply Nat.eqb_eq in He.
    pose proof (Nat.div_mod_eq (length (strip0xi hex)) 2). lia.
  - apply hexLoop_bytes.
Qed.

Lemma isDigitOf_16 (c : Z) :
  isDigitOf 16 c = true <->
  48 <= c <= 57 \/ 97 <= c <= 102 \/ 65 <= c <= 70.
Proof.
  unfold isDigitOf, digitValue. split.
  - zbool; intros; try discriminate; lia.
  - intros H. zbool.
Qed.

Lemma digitValue_16_bound (c v : Z) :
  digitValue 16 c = Some v -> 0 <= v < 16.
Proof.
  unfold digitValue. zbool; intros E; inversion E; subst; lia.
Qed.

(** A pair of hexadecimal digits is read as its value. *)
Lemma byteOfPair_hex (a b : Z) :
  isDigitOf 16 a = true -> isDigitOf 16 b = true ->
  byteOfPair [a; b] = digitsValue 16 [a; b].
Proof.
  intros Ha Hb. pose proof Ha as Ha'. pose proof Hb as Hb'.
  apply isDigitOf_16 in Ha', Hb'.
  unfold byteOfPair, parseInt16, trimStart. cbn [dropWhile].
  assert (isWhiteSpace a = false) as -> by (unfold isWhiteSpace; zbool).
  destruct (Z.eqb_spec a 45); [lia|]. destruct (Z.eqb_spec a 43); [lia|].
  assert (strip0xi [a; b] = [a; b]) as ->.
  { unfold strip0xi. destruct (Z.eqb_spec b 120); [lia|].
    destruct (Z.eqb_spec b 88); [lia|]. now rewrite andb_false_r. }
  cbn [takeWhile]. rewrite Ha, Hb. cbn [ToUint8].
  unfold isDigitOf in Ha, Hb. unfold digitsValue. cbn [fold_left].
  destruct (digitValue 16 a) as [va|] eqn:Ea; [|discriminate].
  destruct (digitValue 16 b) as [vb|] eqn:Eb; [|discriminate].
  apply digitValue_16_bound in Ea, Eb.
  apply Z.mod_small. lia.
Qed.

Lemma hexLoop_hex (s : jsstring) :
  isHexString s = true -> evenLength s = true -> hexLoop s = hexPairs s.
Proof.
  unfold isHexString.
  induction s as [| a | a b r IH] using list_pair_ind; intros Hh He.
  - reflexivity.
  - discriminate.
  - rewrite evenLength_cons2 in He. cbn [forallb] in Hh.
    apply andb_true_iff in Hh as [Ha Hh]. apply andb_true_iff in Hh as [Hb Hr].
    rewrite hexLoop_cons2, byteOfPair_hex, IH by assumption. reflexivity.
Qed.

Lemma strip0xi_hex (s : jsstring) :
  isHexString s = true -> strip0xi s = s.
Proof.
  unfold isHexString, strip0xi. destruct s as [|a [|b r]]; try reflexivity.
  cbn [forallb]. intros H.
  apply andb_true_iff in H as [_ H]. apply andb_true_iff in H as [Hb _].
  apply isDigitOf_16 in Hb.
  destruct (Z.eqb_spec b 120); [lia|]. destruct (Z.eqb_spec b 88); [lia|].
  now rewrite andb_false_r.
Qed.

(** A string of hexadecimal digits of even length decodes to its bytes. *)
Lemma hexToBytes_hex (s : jsstring) :
  isHexString s = true -> evenLength s = true ->
  hexToBytes s = Ok (hexPairs s).
Proof.
  intros Hh He.
  rewrite hexToBytes_unfold, (strip0xi_hex s Hh), He. cbn [negb].
  now rewrite hexLoop_hex.
Qed.

Lemma hexPairs_length (s : jsstring) :
  length (hexPairs s) = (length s / 2)%nat.
Proof.
  induction s as [| a | a b r IH] using list_pair_ind; try reflexivity.
  cbn [hexPairs length]. rewrite IH.
  replace (S (S (length r))) with (1 * 2 + length r)%nat by lia.
  rewrite Nat.div_add_l by lia. reflexivity.
Qed.

(** Byte [i] of the loop comes from the [i]-th pair of units. *)
Lemma hexLoop_nth (i : nat) (pre post : jsstring) (a b : Z) :
  length pre = (2 * i)%nat ->
  nth i (hexLoop (pre ++ a :: b :: post)) 0 = byteOfPair [a; b].
Proof.
  revert pre; induction i as [|i IH]; intros pre Hl.
  - destruct pre; [|simpl in Hl; lia]. cbn [app].
    now rewrite hexLoop_cons2.
  - destruct pre as [|x [|y pre']]; try (simpl in Hl; lia).
    cbn [app]. rewrite hexLoop_cons2. cbn [nth]. apply IH.
    simpl in Hl. lia.
Qed.

Lemma hex_not_space (a : Z) :
  isDigitOf 16 a = true ->
  isWhiteSpace a = false /\ a <> 45 /\ a <> 43.
Proof.
  intros Ha. apply isDigitOf_16 in Ha.
  split; [unfold isWhiteSpace; zbool | lia].
Qed.

(** A hexadecimal digit followed by another unit is read as the digit
    alone (also in the pair [0x], which is read as a bare prefix). *)
Lemma byteOfPair_digit_then_other (a b : Z) :
  isDigitOf 16 a = true -> isDigitOf 16 b = false ->
  byteOfPair [a; b] = digitsValue 16 [a].
Proof.
  intros Ha Hb. destruct (hex_not_space a Ha) as (Hw & H45 & H43).
  unfold byteOfPair, parseInt16, trimStart. cbn [dropWhile]. rewrite Hw.
  destruct (Z.eqb_spec a 45); [contradiction|].
  destruct (Z.eqb_spec a 43); [contradiction|].
  unfold strip0xi.
  destruct ((a =? 48) && ((b =? 120) || (b =? 88))) eqn:E.
  - apply andb_true_iff in E as [E _]. apply Z.eqb_eq in E. subst a.
    reflexivity.
  - cbn [takeWhile]. rewrite Ha, Hb. cbn [ToUint8].
    unfold isDigitOf in Ha. unfold digitsValue. cbn [fold_left].
    destruct (digitValue 16 a) as [va|] eqn:Ea; [|discriminate].
    apply digitValue_16_bound in Ea. apply Z.mod_small. lia.
Qed.

(** A pair that begins with a unit that is neither a hexadecimal digit,
    nor white space, nor a sign is not a number and is stored as 0. *)
Lemma byteOfPair_no_digit (a b : Z) :
  isDigitOf 16 a = false -> isWhiteSpace a = false ->
  a <> 45 -> a <> 43 ->
  byteOfPair [a; b] = 0.
Proof.
  intros Ha Hw H45 H43.
  unfold byteOfPair, parseInt16, trimStart. cbn [dropWhile]. rewrite Hw.
  destruct (Z.eqb_spec a 45); [contradiction|].
  destruct (Z.eqb_spec a 43); [contradiction|].
  assert (strip0xi [a; b] = [a; b]) as ->.
  { unfold strip0xi. destruct (Z.eqb_spec a 48) as [->|]; [discriminate|].
    reflexivity. }
  cbn [takeWhile]. rewrite Ha. reflexivity.
Qed.

(** ** Owner references and signature envelopes *)

Section OwnerAndEnvelope.

Variable toLowerCase : jsstring -> jsstring.

(** On ASCII input the case mapping of the run time works unit by unit. *)
Hypothesis toLowerCase_ascii :
  forall s, forallb isAscii s = true -> toLowerCase s = map asciiLower s.

Lemma length_40_even (s : jsstring) :
  length s = 40%nat \/ length s = 64%nat -> evenLength s = true.
Proof. unfold evenLength. intros [-> | ->]; reflexivity. Qed.

(** What [encodeAccountOwner] does once the owner string is normalised:
    40 hexadecimal digits give tag 2 and their 20 bytes, 64 give tag 1 and
    their 32 bytes, and a normalised string of another length in units is
    refused. *)
Lemma encodeAccountOwner_normalized (owner : jsstring) :
  (length (normalizedOwner toLowerCase owner) = 40%nat ->
   isHexString (normalizedOwner toLowerCase owner) = true ->
   encodeAccountOwner toLowerCase owner
   = Ok (encodeU32LE 2 ++ hexPairs (normalizedOwner toLowerCase owner))
   /\ length (hexPairs (normalizedOwner toLowerCase owner)) = 20%nat)
  /\ (length (normalizedOwner toLowerCase owner) = 64%nat ->
      isHexString (normalizedOwner toLowerCase owner) = true ->
      encodeAccountOwner toLowerCase owner
      = Ok (encodeU32LE 1 ++ hexPairs (normalizedOwner toLowerCase owner))
      /\ length (hexPairs (normalizedOwner toLowerCase owner)) = 32%nat)
  /\ (length (normalizedOwner toLowerCase owner) <> 40%nat ->
      length (normalizedOwner toLowerCase owner) <> 64%nat ->
      encodeAccountOwner toLowerCase owner
      = Throw (Error "Owner must be 20-byte or 32-byte hex")).
Proof.
  unfold encodeAccountOwner. fold (normalizedOwner toLowerCase owner).
  split; [|split].
  - intros Hl Hh. rewrite Hl. cbn [Nat.eqb].
    rewrite hexToBytes_hex by (auto using length_40_even). cbn [bind].
    rewrite concatBytes_concat. cbn [concat]. rewrite app_nil_r.
    split; [reflexivity|]. rewrite hexPairs_length, Hl. reflexivity.
  - intros Hl Hh. rewrite Hl. cbn [Nat.eqb].
    rewrite hexToBytes_hex by (auto using length_40_even). cbn [bind].
    rewrite concatBytes_concat. cbn [concat]. rewrite app_nil_r.
    split; [reflexivity|]. rewrite hexPairs_length, Hl. reflexivity.
  - intros H40 H64.
    apply Nat.eqb_neq in H40, H64. now rewrite H40, H64.
Qed.

Lemma hex_ascii (s : jsstring) :
  isHexString s = true -> forallb isAscii s = true.
Proof.
  unfold isHexString. intros H. apply forallb_forall. intros c Hc.
  pose proof (proj1 (isDigitOf_16 c) (forallb_In _ _ _ H Hc)).
  unfold isAscii. zbool.
Qed.

Lemma hex_lower (s : jsstring) :
  isHexString s = true -> isHexString (map asciiLower s) = true.
Proof.
  unfold isHexString. intros H. apply forallb_forall. intros c Hc.
  apply in_map_iff in Hc as (x & <- & Hx).
  pose proof (proj1 (isDigitOf_16 x) (forallb_In _ _ _ H Hx)).
  apply isDigitOf_16. unfold asciiLower. zbool.
Qed.

Lemma hex_trim (s : jsstring) : isHexString s = true -> trim s = s.
Proof.
  intros H. apply trim_none. intros c Hc.
  pose proof (proj1 (isDigitOf_16 c) (forallb_In _ _ _ H Hc)).
  unfold isWhiteSpace. zbool.
Qed.

(** Letter case and the prefix do not matter: hexadecimal digits, bare
    or after [0x] or [0X], normalise to their lower-case form. *)
Lemma normalizedOwner_hex (h : jsstring) :
  isHexString h = true -> (2 <= length h)%nat ->
  normalizedOwner toLowerCase h = map asciiLower h
  /\ normalizedOwner toLowerCase (str "0x" ++ h) = map asciiLower h
  /\ normalizedOwner toLowerCase (str "0X" ++ h) = map asciiLower h.
Proof.
  intros Hh Hlen. unfold normalizedOwner.
  pose proof (hex_ascii h Hh) as Ha. pose proof (hex_lower h Hh) as Hl.
  pose proof (hex_trim h Hh) as Ht.
  assert (forall p, isWhiteSpace p = false ->
                    trim (48 :: p :: h) = 48 :: p :: h)
    as Htp.
  { intros p Hp. apply trim_none. intros c [<-|[<-|Hc]]; auto.
    pose proof (proj1 (isDigitOf_16 c) (forallb_In _ _ _ Hh Hc)).
    unfold isWhiteSpace. zbool. }
  split; [|split].
  - rewrite Ht, toLowerCase_ascii by assumption.
    destruct h as [|a [|b r]]; try (simpl in Hlen; lia).
    cbn [map forallb isHexString] in *. unfold isHexString in Hl.
    cbn [forallb] in Hl.
    apply andb_true_iff in Hl as [_ Hl]. apply andb_true_iff in Hl as [Hb _].
    apply isDigitOf_16 in Hb. unfold strip0x.
    destruct (Z.eqb_spec (asciiLower b) 120); [lia|].
    now rewrite andb_false_r.
  - change (str "0x" ++ h) with (48 :: 120 :: h).
    rewrite Htp by reflexivity.
    rewrite toLowerCase_ascii by (cbn [forallb]; rewrite Ha; reflexivity).
    reflexivity.
  - change (str "0X" ++ h) with (48 :: 88 :: h).
    rewrite Htp by reflexivity.
    rewrite toLowerCase_ascii by (cbn [forallb]; rewrite Ha; reflexivity).
    reflexivity.
Qed.

(** C3 (failing input): an owner with the prefix written twice normalises
    to 40 units that begin with [0x]; [hexToBytes] strips the prefix again
    and returns 19 bytes, and [encodeAccountOwner] returns tag 2 followed by
    those 19 bytes instead of failing.  The envelope encoder, which measures
    the decoded address, refuses the same string. *)
Theorem encodeAccountOwner_double_prefix :
  normalizedOwner toLowerCase doublePrefixOwner = str "0x" ++ repeat 97 38
  /\ length (normalizedOwner toLowerCase doublePrefixOwner) = 40%nat
  /\ hexToBytes (normalizedOwner toLowerCase doublePrefixOwner)
     = Ok (repeat 170 19)
  /\ encodeAccountOwner toLowerCase doublePrefixOwner
     = Ok (encodeU32LE 2 ++ repeat 170 19)
  /\ encodeEvmAccountSignature toLowerCase sampleSignature doublePrefixOwner
     = Throw (Error "EVM address must be 20 bytes").
Proof.
  assert (normalizedOwner toLowerCase doublePrefixOwner
          = str "0x" ++ repeat 97 38) as E.
  { unfold normalizedOwner.
    rewrite toLowerCase_ascii by (vm_compute; reflexivity).
    vm_compute. reflexivity. }
  split; [exact E|]. split; [rewrite E; reflexivity|].
  split; [rewrite E; vm_compute; reflexivity|].
  split.
  - unfold encodeAccountOwner.
    fold (normalizedOwner toLowerCase doublePrefixOwner).
    rewrite E. vm_compute. reflexivity.
  - unfold encodeEvmAccountSignature.
    fold (normalizedOwner toLowerCase doublePrefixOwner).
    rewrite E. vm_compute. reflexivity.
Qed.

(** Units that are not hexadecimal digits go through the owner and the
    envelope encoders as well: 40 times [z] is encoded as an owner of 20
    zero bytes, and with a signature of 130 times [z] as an envelope of
    zero bytes. *)
Lemma encoders_accept_non_hex :
  encodeAccountOwner toLowerCase nonHexOwner
  = Ok (encodeU32LE 2 ++ repeat 0 20)
  /\ encodeEvmAccountSignature toLowerCase nonHexSignature nonHexOwner
     = Ok (encodeU32LE 2 ++ repeat 0 65 ++ repeat 0 20).
Proof.
  assert (toLowerCase (trim nonHexOwner) = nonHexOwner) as E.
  { rewrite toLowerCase_ascii by (vm_compute; reflexivity).
    vm_compute. reflexivity. }
  split.
  - unfold encodeAccountOwner. rewrite E. vm_compute. reflexivity.
  - unfold encodeEvmAccountSignature. rewrite E. vm_compute. reflexivity.
Qed.

(** C7 (amended): hexadecimal decoding fails on odd length and on nothing
    else.  After the optional prefix, a string of odd length raises the
    length error; a string of even length decodes, whatever its units, to
    one byte for every two units, byte [i] being what [parseInt] reads in
    the [i]-th pair, stored as a byte: the value of a pair of hexadecimal
    digits, the first digit alone when only the first unit is one, 0 when
    the pair begins with a unit that is no digit, white space or sign.  An
    owner of odd normalised length, a signature of odd length and an address
    of odd normalised length are all refused. *)
Theorem hexToBytes_rejects_odd_length_only :
  forall hex : jsstring,
    (evenLength (strip0xi hex) = false ->
     hexToBytes hex = Throw (Error "Invalid hex string length"))
    /\ (evenLength (strip0xi hex) = true ->
        exists bs,
          hexToBytes hex = Ok bs
          /\ bs = map (fun i =>
                         ToUint8 (parseInt16
                                    (slice (strip0xi hex) (i * 2) (i * 2 + 2))))
                      (seq 0 (length (strip0xi hex) / 2))
          /\ (length (strip0xi hex) = 2 * length bs)%nat
          /\ Forall isByte bs
          /\ (forall i pre a b post,
                strip0xi hex = pre ++ a :: b :: post ->
                length pre = (2 * i)%nat ->
                nth i bs 0 = ToUint8 (parseInt16 [a; b])))
    /\ (isHexString hex = true -> evenLength hex = true ->
        hexToBytes hex = Ok (hexPairs hex))
    /\ (evenLength (normalizedOwner toLowerCase hex) = false ->
        encodeAccountOwner toLowerCase hex
        = Throw (Error "Owner must be 20-byte or 32-byte hex"))
    /\ (evenLength (strip0xi hex) = false ->
        forall address,
          encodeEvmAccountSignature toLowerCase hex address
          = Throw (Error "Invalid hex string length"))
    /\ (evenLength (strip0xi (normalizedOwner toLowerCase hex)) = false ->
        forall signatureHex sigBytes,
          hexToBytes signatureHex = Ok sigBytes ->
          length sigBytes = 65%nat ->
          encodeEvmAccountSignature toLowerCase signatureHex hex
          = Throw (Error "Invalid hex string length"))
    /\ (forall a b,
          (isDigitOf 16 a = true -> isDigitOf 16 b = true ->
           ToUint8 (parseInt16 [a; b]) = digitsValue 16 [a; b])
          /\ (isDigitOf 16 a = true -> isDigitOf 16 b = false ->
              ToUint8 (parseInt16 [a; b]) = digitsValue 16 [a])
          /\ (isDigitOf 16 a = false -> isWhiteSpace a = false ->
              a <> 45 -> a <> 43 ->
              ToUint8 (parseInt16 [a; b]) = 0)).
Proof.
  intros hex. split; [apply hexToBytes_odd|]. split; [|repeat split].
  - intros He. exists (hexLoop (strip0xi hex)).
    assert (hexToBytes hex = Ok (hexLoop (strip0xi hex))) as H
        by (apply hexToBytes_Ok; auto).
    split; [exact H|]. split; [reflexivity|].
    destruct (hexToBytes_length _ _ H) as [Hl Hb].
    split; [exact Hl|]. split; [exact Hb|].
    intros i pre a b post E Hpre. rewrite E. now apply hexLoop_nth.
  - apply hexToBytes_hex.
  - intros Ho. apply encodeAccountOwner_normalized.
    + intros E. rewrite length_40_even in Ho by auto. discriminate.
    + intros E. rewrite length_40_even in Ho by auto. discriminate.
  - intros Ho address. unfold encodeEvmAccountSignature.
    now rewrite hexToBytes_odd.
  - intros Ho signatureHex sb Hs Hl. unfold encodeEvmAccountSignature.
    rewrite Hs. cbn [bind]. rewrite Hl. cbn [Nat.eqb negb].
    fold (normalizedOwner toLowerCase hex).
    now rewrite hexToBytes_odd.
  - apply byteOfPair_hex.
  - apply byteOfPair_digit_then_other.
  - apply byteOfPair_no_digit.
Qed.

(** C4: the envelope encoder succeeds exactly when the signature decodes
    to 65 bytes and the normalised address to 20; the output is then
    [encodeU32LE 2], the signature bytes and the address bytes, 89 bytes in
    all; a decoded signature of another length (64 or 66 bytes, say) and a
    decoded address of another length are refused with their own errors. *)
Theorem encodeEvmAccountSignature_spec :
  forall (signatureHex address : jsstring),
    (forall out,
        encodeEvmAccountSignature toLowerCase signatureHex address = Ok out
        <-> exists sigBytes addressBytes,
            hexToBytes signatureHex = Ok sigBytes
            /\ length sigBytes = 65%nat
            /\ hexToBytes (normalizedOwner toLowerCase address)
               = Ok addressBytes
            /\ length addressBytes = 20%nat
            /\ out = encodeU32LE 2 ++ sigBytes ++ addressBytes)
    /\ (forall out,
          encodeEvmAccountSignature toLowerCase signatureHex address = Ok out
          -> length out = 89%nat /\ firstn 4 out = [2; 0; 0; 0]
             /\ Forall isByte out)
    /\ (forall sigBytes,
          hexToBytes signatureHex = Ok sigBytes ->
          length sigBytes <> 65%nat ->
          encodeEvmAccountSignature toLowerCase signatureHex address
          = Throw (Error "EVM signature must be 65 bytes"))
    /\ (forall sigBytes addressBytes,
          hexToBytes signatureHex = Ok sigBytes ->
          length sigBytes = 65%nat ->
          hexToBytes (normalizedOwner toLowerCase address) = Ok addressBytes ->
          length addressBytes <> 20%nat ->
          encodeEvmAccountSignature toLowerCase signatureHex address
          = Throw (Error "EVM address must be 20 bytes")).
Proof.
  intros signatureHex address.
  assert (forall out,
             encodeEvmAccountSignature toLowerCase signatureHex address
             = Ok out
             <-> exists sigBytes addressBytes,
                 hexToBytes signatureHex = Ok sigBytes
                 /\ length sigBytes = 65%nat
                 /\ hexToBytes (normalizedOwner toLowerCase address)
                    = Ok addressBytes
                 /\ length addressBytes = 20%nat
                 /\ out = encodeU32LE 2 ++ sigBytes ++ addressBytes) as Hiff.
  { intros out. unfold encodeEvmAccountSignature.
    fold (normalizedOwner toLowerCase address). split.
    - intros H. apply bind_Ok in H as (sb & Hs & H).
      destruct (Nat.eqb_spec (length sb) 65) as [Hl|Hl];
        cbn [negb] in H; [|discriminate].
      apply bind_Ok in H as (ab & Ha & H).
      destruct (Nat.eqb_spec (length ab) 20) as [Hl'|Hl'];
        cbn [negb] in H; [|discriminate].
      rewrite concatBytes_concat in H. cbn [concat] in H.
      rewrite app_nil_r in H. injection H as <-.
      exists sb, ab. auto.
    - intros (sb & ab & Hs & Hl & Ha & Hl' & ->).
      rewrite Hs. cbn [bind]. rewrite Hl. cbn [Nat.eqb negb].
      rewrite Ha. cbn [bind]. rewrite Hl'. cbn [Nat.eqb negb].
      rewrite concatBytes_concat. cbn [concat]. now rewrite app_nil_r. }
  split; [exact Hiff|]. split; [|split].
  - intros out H. apply Hiff in H as (sb & ab & Hs & Hl & Ha & Hl' & ->).
    split; [|split].
    + rewrite !length_app, Hl, Hl'. reflexivity.
    + reflexivity.
    + apply hexToBytes_length in Hs as [_ Fs], Ha as [_ Fa].
      apply Forall_app. split; [|apply Forall_app; split; assumption].
      rewrite encodeU32LE_small by lia.
      repeat (apply Forall_cons; [unfold isByte; lia|]). apply Forall_nil.
  - intros sb Hs Hl. unfold encodeEvmAccountSignature.
    rewrite Hs. cbn [bind]. apply Nat.eqb_neq in Hl. now rewrite Hl.
  - intros sb ab Hs Hl Ha Hl'. unfold encodeEvmAccountSignature.
    fold (normalizedOwner toLowerCase address).
    rewrite Hs. cbn [bind]. rewrite Hl. cbn [Nat.eqb negb].
    rewrite Ha. cbn [bind]. apply Nat.eqb_neq in Hl'. now rewrite Hl'.
Qed.

End OwnerAndEnvelope.

Lemma toLowerCaseAscii_ascii (s : jsstring) :
  forallb isAscii s = true -> toLowerCaseAscii s = map asciiLower s.
Proof. reflexivity. Qed.

Lemma encodeAccountOwner_double_prefix_witness :
  length (normalizedOwner toLowerCaseAscii doublePrefixOwner) = 40%nat
  /\ encodeAccountOwner toLowerCaseAscii doublePrefixOwner
     = Ok (encodeU32LE 2 ++ repeat 170 19).
Proof.
  pose proof (encodeAccountOwner_double_prefix toLowerCaseAscii
                toLowerCaseAscii_ascii) as (_ & Hl & _ & He & _).
  exact (conj Hl He).
Defined.

Lemma hexToBytes_rejects_odd_length_only_witness :
  hexToBytes (str "0xabc") = Throw (Error "Invalid hex string length")
  /\ hexToBytes (str "ABcd") = Ok [171; 205].
Proof.
  destruct (hexToBytes_rejects_odd_length_only toLowerCaseAscii (str "0xabc"))
    as (Hodd & _).
  destruct (hexToBytes_rejects_odd_length_only toLowerCaseAscii (str "ABcd"))
    as (_ & _ & Hhex & _).
  split.
  - apply Hodd. reflexivity.
  - exact (Hhex eq_refl eq_refl).
Defined.

(** C7, as stated, fails: a string of two units that are not hexadecimal
    digits decodes to a zero byte, and a digit followed by another unit to
    the digit. *)
Lemma hexToBytes_non_hex_accepted :
  isHexString (str "zz") = false /\ hexToBytes (str "zz") = Ok [0]
  /\ isHexString (str "1g") = false /\ hexToBytes (str "1g") = Ok [1]
  /\ encodeAccountOwner toLowerCaseAscii nonHexOwner
     = Ok ([2; 0; 0; 0] ++ repeat 0 20).
Proof. repeat split; vm_compute; reflexivity. Qed.

Lemma encodeEvmAccountSignature_spec_witness :
  exists out,
    encodeEvmAccountSignature toLowerCaseAscii sampleSignature evmOwner
    = Ok out
    /\ length out = 89%nat /\ firstn 4 out = [2; 0; 0; 0]
    /\ Forall isByte out.
Proof.
  destruct (encodeEvmAccountSignature_spec toLowerCaseAscii
              sampleSignature evmOwner) as (Hiff & Hlen & _ & _).
  eexists. split.
  - apply Hiff. exists (repeat 17 64 ++ [27]), (repeat 170 20).
    repeat split; vm_compute; reflexivity.
  - apply (Hlen (encodeU32LE 2 ++ (repeat 17 64 ++ [27]) ++ repeat 170 20)).
    vm_compute. reflexivity.
Defined.

(** ** Signs and extra points in amounts *)

(** The guard of [parseAmountToU128]: a raw string (trimmed, underscores
    removed) that begins with a minus sign is refused. *)
Lemma parseAmountToU128_negative_guard (input : jsstring) :
  startsWith (rawAmount input) (str "-") = true ->
  parseAmountToU128 input = Throw (Error "Amount cannot be negative").
Proof.
  intros H. rewrite parseAmountToU128_unfold, H.
  destruct (rawAmount input); [discriminate | reflexivity].
Qed.

(** C6 (failing input): in ["+-1"] the minus sign follows a plus sign.  The
    guard looks at the string before the plus sign is removed, so the
    string passes it, [BigInt] reads ["-1000000000000000000"], and the
    encoder returns the two's complement bytes of a negative value. *)
Theorem parseAmountToU128_plus_minus :
  stripPlus (rawAmount (str "+-1")) = str "-1"
  /\ parseAmountToU128 (str "+-1") = Ok (- 10 ^ 18)
  /\ encodeAmount (str "+-1")
     = Ok [0; 0; 156; 88; 76; 73; 31; 242;
           255; 255; 255; 255; 255; 255; 255; 255]
  /\ parseAmountToU128 (str "-1")
     = Throw (Error "Amount cannot be negative").
Proof. repeat split; vm_compute; reflexivity. Qed.

Lemma takeWhile_stop {A} (p : A -> bool) (l r : list A) (c : A) :
  (forall x, In x l -> p x = true) -> p c = false ->
  takeWhile p (l ++ c :: r) = l.
Proof.
  intros Hl Hc. induction l as [|x l IH]; simpl.
  - now rewrite Hc.
  - rewrite (Hl x) by (left; reflexivity). f_equal. apply IH.
    intros y Hy. apply Hl. now right.
Qed.

Lemma split_app_sep (a r : jsstring) :
  (forall c, In c a -> c <> 46) ->
  split 46 (a ++ 46 :: r) = a :: split 46 r.
Proof.
  intros Ha. induction a as [|x a IH]; [reflexivity|].
  cbn [app split].
  destruct (Z.eqb_spec x 46) as [E|_];
    [exfalso; apply (Ha x); [now left | exact E]|].
  rewrite IH; [reflexivity|]. intros c Hc. apply Ha. now right.
Qed.



(** Once the raw string has a point, the parser only looks at what is
    before it and at what lies between it and the next point. *)
Lemma parse_raw_point (input A Z : jsstring) :
  rawAmount input = A ++ 46 :: Z ->
  (forall c, In c A -> c <> 46) ->
  parseAmountToU128 input
  = if startsWith (A ++ [46]) (str "-")
    then Throw (Error "Amount cannot be negative")
    else amountOfParts (stripPlus A) (integerDigits Z).
Proof.
  intros E HA. rewrite parseAmountToU128_unfold, E.
  assert (startsWith (A ++ 46 :: Z) (str "-")
          = startsWith (A ++ [46]) (str "-")) as ->
      by (destruct A; reflexivity).
  assert (stripPlus (A ++ 46 :: Z) = stripPlus A ++ 46 :: Z) as ->.
  { destruct A as [|c A']; [reflexivity|]. cbn [app stripPlus].
    destruct (c =? 43); reflexivity. }
  rewrite split_app_sep.
  - change (nth 1 (stripPlus A :: split 46 Z) [])
      with (nth 0 (split 46 Z) []).
    rewrite split_first. cbn [nth].
    destruct (A ++ 46 :: Z) eqn:E'; [|reflexivity].
    destruct A; discriminate.
  - intros c Hc. apply HA. destruct A as [|x A']; [contradiction|].
    cbn [stripPlus] in Hc. destruct (x =? 43); [now right | exact Hc].
Qed.




(** ** The signing message *)

Lemma byte_cases (P : Z -> Prop) :
  Forall P (map Z.of_nat (seq 0 256)) -> forall v, isByte v -> P v.
Proof.
  intros H v Hv. rewrite Forall_forall in H. apply H.
  apply in_map_iff. exists (Z.to_nat v). split; [unfold isByte in Hv; lia|].
  apply in_seq. unfold isByte in Hv. lia.
Qed.

Lemma hexOfByte_ok_all : forall v, isByte v -> hexOfByte_ok v = true.
Proof.
  apply byte_cases. apply Forall_forall. intros v Hv.
  assert (forallb hexOfByte_ok (map Z.of_nat (seq 0 256)) = true) as H
      by (vm_compute; reflexivity).
  exact (forallb_In _ _ _ H Hv).
Qed.

(** [bytesToHex] writes every byte as two lower-case hexadecimal digits,
    which read back as the byte. *)
Lemma bytesToHex_spec (bs : bytes) :
  Forall isByte bs ->
  bytesToHex bs = concat (map hexOfByte bs)
  /\ length (bytesToHex bs) = (2 * length bs)%nat
  /\ forallb isLowerHexDigit (bytesToHex bs) = true
  /\ hexPairs (bytesToHex bs) = bs.
Proof.
  unfold bytesToHex. induction 1 as [|v bs Hv Hbs (IH1 & IH2 & IH3 & IH4)].
  - repeat split.
  - pose proof (hexOfByte_ok_all v Hv) as Hok. unfold hexOfByte_ok in Hok.
    apply andb_true_iff in Hok as [Hok Hval].
    apply andb_true_iff in Hok as [Heq Hlow].
    destruct (list_eq_dec Z.eq_dec _ _) as [E|]; [|discriminate].
    apply Z.eqb_eq in Hval.
    cbn [map concat]. rewrite E, IH1.
    split; [reflexivity|]. rewrite <- IH1.
    split; [|split].
    + rewrite length_app, IH2. simpl. lia.
    + rewrite forallb_app, Hlow, IH3. reflexivity.
    + change (hexOfByte v ++ ?r) with
        (hexDigit (v / 16) :: hexDigit (v mod 16) :: r).
      cbn [hexPairs]. rewrite IH4. f_equal. exact Hval.
Qed.

Section Signing.

Variable toLowerCase : jsstring -> jsstring.
Variable keccak_256 : bytes -> bytes.
Variable personal_sign : jsstring -> jsstring -> result jsstring.

(** The hash returns a [Uint8Array] of 32 elements. *)
Hypothesis keccak_256_digest :
  forall b, length (keccak_256 b) = 32%nat /\ Forall isByte (keccak_256 b).

(** C2: when the payload of the form encodes, the hash is applied to the
    ASCII bytes of ["CreateTokenRequest::"] followed by the payload bytes,
    and the wallet receives ["0x"] followed by the digest in lower-case
    hexadecimal, two digits a byte. *)
Theorem signWithMetaMask_message :
  forall (walletAddress : jsstring) (form : Form) (payloadBytes : bytes),
    walletAddress <> [] ->
    encodeCreateTokenRequest toLowerCase (formPayload walletAddress form)
    = Ok payloadBytes ->
    let digest := keccak_256 (domainBytes ++ payloadBytes) in
    let messageHex := str "0x" ++ concat (map hexOfByte digest) in
    TEXT_ENCODER_encode (CREATE_TOKEN_TYPE ++ str "::") = domainBytes
    /\ signingMessage toLowerCase keccak_256 walletAddress form
       = Ok messageHex
    /\ signWithMetaMask toLowerCase keccak_256 personal_sign
         walletAddress form
       = (rawSignature <- personal_sign messageHex walletAddress ;;
          envelope <- encodeEvmAccountSignature toLowerCase rawSignature
                        walletAddress ;;
          Ok (bytesToHex envelope))
    /\ length messageHex = 66%nat
    /\ forallb isLowerHexDigit (skipn 2 messageHex) = true
    /\ hexPairs (skipn 2 messageHex) = digest.
Proof.
  intros walletAddress form payloadBytes Hw Hp digest messageHex.
  destruct (keccak_256_digest (domainBytes ++ payloadBytes)) as [Hlen Hb].
  destruct (bytesToHex_spec digest Hb) as (E1 & E2 & E3 & E4).
  assert (signingMessage toLowerCase keccak_256 walletAddress form
          = Ok messageHex) as Hm.
  { unfold signingMessage. destruct walletAddress as [|c r]; [congruence|].
    rewrite Hp. cbn [bind]. rewrite concatBytes_concat. cbn [bind concat].
    rewrite app_nil_r.
    change (TEXT_ENCODER_encode (CREATE_TOKEN_TYPE ++ str "::"))
      with domainBytes.
    fold digest. rewrite E1. reflexivity. }
  split; [reflexivity|]. split; [exact Hm|]. split.
  - unfold signWithMetaMask. rewrite Hm. reflexivity.
  - unfold messageHex. cbn [str app skipn]. rewrite <- E1.
    split; [|split]; try assumption.
    change (str "0x" ++ bytesToHex digest)
      with (48 :: 120 :: bytesToHex digest).
    cbn [length]. rewrite E2. unfold digest. rewrite Hlen. reflexivity.
Qed.

End Signing.

Lemma sampleHash_digest (b : bytes) :
  length (sampleHash b) = 32%nat /\ Forall isByte (sampleHash b).
Proof.
  unfold sampleHash. split.
  - rewrite length_map, length_firstn, length_app, repeat_length. lia.
  - apply Forall_forall. intros x Hx.
    apply in_map_iff in Hx as (y & <- & _). apply Z.mod_pos_bound. lia.
Qed.

Lemma signWithMetaMask_message_witness :
  signingMessage toLowerCaseAscii sampleHash evmOwner sampleForm
  = Ok (str "0x" ++ concat (map hexOfByte
                              (sampleHash (domainBytes
                                 ++ [2; 0; 0; 0] ++ repeat 170 20
                                 ++ [4; 0; 0; 0; 84; 101; 115; 116;
                                     3; 0; 0; 0; 84; 83; 84; 9]
                                 ++ encodeU128LE (800000000 * 10 ^ 18))))).
Proof.
  refine (proj1 (proj2 (signWithMetaMask_message toLowerCaseAscii sampleHash
                          sampleWallet sampleHash_digest evmOwner sampleForm
                          _ _ _))).
  - discriminate.
  - vm_compute. reflexivity.
Defined.


(** * Further properties of the encoders *)

(** ** Byte strings *)

Lemma app_inj_length {A} (a b x y : list A) :
  length a = length b -> a ++ x = b ++ y -> a = b /\ x = y.
Proof.
  revert b; induction a as [|c a IH]; intros [|d b] Hl H;
    simpl in *; try discriminate.
  - auto.
  - injection H as -> H. destruct (IH b) as [-> ->]; auto.
Qed.

Lemma concat_bytes (chunks : list bytes) :
  Forall (Forall isByte) chunks -> Forall isByte (concat chunks).
Proof.
  induction 1 as [|c cs Hc _ IH]; simpl; [constructor|].
  apply Forall_app. auto.
Qed.

(** X1: [concatBytes] never writes outside the array it allocates: for
    every list of chunks it returns their concatenation, whose length is the
    sum of the lengths; chunks of bytes give bytes, and joining in two steps
    or in one gives the same array. *)
Theorem concatBytes_never_out_of_range :
  forall chunks : list bytes,
    concatBytes chunks = Ok (concat chunks)
    /\ length (concat chunks) = list_sum (map (@length Z) chunks)
    /\ (Forall (Forall isByte) chunks -> Forall isByte (concat chunks))
    /\ forall more : list bytes,
        (joined <- concatBytes chunks ;; concatBytes (joined :: more))
        = concatBytes (chunks ++ more).
Proof.
  intros chunks. split; [apply concatBytes_concat|]. split; [|split].
  - induction chunks as [|c cs IH]; simpl; [reflexivity|].
    now rewrite length_app, IH.
  - apply concat_bytes.
  - intros more. rewrite !concatBytes_concat. cbn [bind].
    rewrite concatBytes_concat, concat_app. reflexivity.
Qed.

Lemma decodeU128LE_bound (bs : bytes) :
  Forall isByte bs -> 0 <= decodeU128LE bs < 256 ^ Z.of_nat (length bs).
Proof.
  induction 1 as [|b bs Hb _ IH]; [simpl; lia|].
  cbn [decodeU128LE fold_right length].
  fold (decodeU128LE bs). rewrite Nat2Z.inj_succ, Z.pow_succ_r by lia.
  unfold isByte in Hb. lia.
Qed.

Lemma encodeU32LE_value (v : Z) :
  decodeU128LE (encodeU32LE v) = v mod 4294967296.
Proof.
  unfold encodeU32LE, decodeU128LE. cbn [fold_right].
  set (w := v mod 4294967296).
  assert (0 <= w < 4294967296) as Hw by (apply Z.mod_pos_bound; lia).
  pose proof (Z.div_mod w 256 ltac:(lia)) as H1.
  pose proof (Z.div_mod (w / 256) 256 ltac:(lia)) as H2.
  pose proof (Z.div_mod (w / 256 / 256) 256 ltac:(lia)) as H3.
  rewrite Z.div_div in H2, H3 by lia. rewrite Z.div_div in H3 by lia.
  change (256 * 256) with 65536 in *. change (65536 * 256) with 16777216 in *.
  assert (w / 16777216 < 256) as H4
      by (apply Z.div_lt_upper_bound; lia).
  assert (0 <= w / 16777216) as H5 by (apply Z.div_pos; lia).
  rewrite (Z.mod_small (w / 16777216) 256) by lia. lia.
Qed.

Lemma encodeU32LE_bytes (v : Z) : Forall isByte (encodeU32LE v).
Proof.
  unfold encodeU32LE.
  repeat (apply Forall_cons; [apply Z.mod_pos_bound; lia|]). apply Forall_nil.
Qed.

Lemma encodeU32LE_inj (a b : Z) :
  0 <= a < 4294967296 -> 0 <= b < 4294967296 ->
  encodeU32LE a = encodeU32LE b -> a = b.
Proof.
  intros Ha Hb H. apply (f_equal decodeU128LE) in H.
  rewrite !encodeU32LE_value, !Z.mod_small in H by lia. exact H.
Qed.

(** X2: [encodeU32LE] writes four bytes, least significant first, whose
    value is the argument modulo [2^32]; two numbers below [2^32] with the
    same encoding are equal. *)
Theorem encodeU32LE_little_endian :
  forall v : Z,
    length (encodeU32LE v) = 4%nat
    /\ Forall isByte (encodeU32LE v)
    /\ decodeU128LE (encodeU32LE v) = v mod 2 ^ 32
    /\ forall w, 0 <= v < 2 ^ 32 -> 0 <= w < 2 ^ 32 ->
                 encodeU32LE v = encodeU32LE w -> v = w.
Proof.
  intros v. split; [reflexivity|]. split; [apply encodeU32LE_bytes|].
  split; [apply encodeU32LE_value|].
  intros w Hv Hw. apply encodeU32LE_inj; assumption.
Qed.

Lemma encodeU32LE_little_endian_witness :
  decodeU128LE (encodeU32LE 258) = 258 mod 2 ^ 32
  /\ (encodeU32LE 258 = [2; 1; 0; 0] -> 258 = 258).
Proof.
  split.
  - exact (proj1 (proj2 (proj2 (encodeU32LE_little_endian 258)))).
  - apply (proj2 (proj2 (proj2 (encodeU32LE_little_endian 258))) 258); lia.
Defined.

(** X3: [encodeU128LE] accepts every bigint: it writes 16 bytes whose
    little-endian value is the argument modulo [2^128], that is the argument
    itself in the unsigned 128-bit range and the two's complement
    [v + 2^128] for a negative [v] down to [-2^128]; in the unsigned range
    the encoding determines the value. *)
Theorem encodeU128LE_twos_complement :
  forall v : Z,
    length (encodeU128LE v) = 16%nat
    /\ Forall isByte (encodeU128LE v)
    /\ decodeU128LE (encodeU128LE v) = v mod 2 ^ 128
    /\ (0 <= v < 2 ^ 128 -> decodeU128LE (encodeU128LE v) = v)
    /\ (- 2 ^ 128 <= v < 0 ->
        decodeU128LE (encodeU128LE v) = v + 2 ^ 128)
    /\ forall w, 0 <= v < 2 ^ 128 -> 0 <= w < 2 ^ 128 ->
                 encodeU128LE v = encodeU128LE w -> v = w.
Proof.
  intros v. split; [apply encodeU128LE_length|].
  split; [apply encodeU128LE_bytes|].
  split; [apply encodeU128LE_decode|]. split; [|split].
  - intros H. rewrite encodeU128LE_decode. now apply Z.mod_small.
  - intros H. rewrite encodeU128LE_decode.
    rewrite <- (Z.mod_add v 1 (2 ^ 128)) by lia.
    apply Z.mod_small. lia.
  - intros w Hv Hw H. apply (f_equal decodeU128LE) in H.
    rewrite !encodeU128LE_decode, !Z.mod_small in H by lia. exact H.
Qed.

Lemma encodeU128LE_twos_complement_witness :
  decodeU128LE (encodeU128LE (-1)) = -1 + 2 ^ 128.
Proof.
  apply (proj1 (proj2 (proj2 (proj2 (proj2
           (encodeU128LE_twos_complement (-1))))))).
  lia.
Defined.

(** ** Length-prefixed strings *)

Lemma TEXT_ENCODER_encode_ascii (s : jsstring) :
  forallb isAscii s = true -> TEXT_ENCODER_encode s = s.
Proof.
  induction s as [|c s IH]; [reflexivity|]. cbn [forallb].
  intros H. apply andb_true_iff in H as [Hc Hs].
  unfold isAscii in Hc. apply andb_true_iff in Hc as [H0 H1].
  apply Z.leb_le in H0. apply Z.ltb_lt in H1.
  cbn [TEXT_ENCODER_encode]. unfold isHighSurrogate, isLowSurrogate.
  destruct (Z.leb_spec 55296 c); [lia|]. cbn [andb].
  destruct (Z.leb_spec 56320 c); [lia|]. cbn [andb].
  unfold utf8CodePoint. destruct (Z.ltb_spec c 128); [|lia].
  cbn [app]. now rewrite IH.
Qed.

Lemma utf8CodePoint_bytes (cp : Z) :
  0 <= cp < 1114112 ->
  Forall isByte (utf8CodePoint cp)
  /\ (1 <= length (utf8CodePoint cp) <= 4)%nat
  /\ (cp < 65536 -> (length (utf8CodePoint cp) <= 3)%nat).
Proof.
  intros H. unfold utf8CodePoint, isByte.
  destruct (Z.ltb_spec cp 128); [|destruct (Z.ltb_spec cp 2048);
    [|destruct (Z.ltb_spec cp 65536)]];
    (split; [repeat (apply Forall_cons;
                     [Z.div_mod_to_equations; lia|]); apply Forall_nil
            |cbn [length]; lia]).
Qed.

Lemma TEXT_ENCODER_encode_bounds (n : nat) (s : jsstring) :
  (length s <= n)%nat -> Forall validUnit s ->
  Forall isByte (TEXT_ENCODER_encode s)
  /\ (length s <= length (TEXT_ENCODER_encode s) <= 3 * length s)%nat.
Proof.
  revert s; induction n as [|n IH]; intros s Hn Hv.
  - destruct s; [|simpl in Hn; lia]. simpl. split; [constructor | lia].
  - destruct s as [|c r]; [simpl; split; [constructor | lia]|].
    inversion Hv as [|? ? Hc Hr]; subst. unfold validUnit in Hc.
    cbn [length] in Hn.
    destruct (utf8CodePoint_bytes 65533 ltac:(lia)) as (Fb & Fl & _).
    assert (length (utf8CodePoint 65533) = 3%nat) as F3 by reflexivity.
    destruct (IH r ltac:(lia) Hr) as [IHb IHl].
    cbn [TEXT_ENCODER_encode].
    destruct (isHighSurrogate c) eqn:Hh.
    + destruct r as [|lo r'].
      * split; [exact Fb | rewrite F3; simpl; lia].
      * inversion Hr as [|? ? Hlo Hr']; subst. unfold validUnit in Hlo.
        cbn [length] in *.
        destruct (isLowSurrogate lo) eqn:Hl.
        -- unfold isHighSurrogate in Hh. unfold isLowSurrogate in Hl.
           apply andb_true_iff in Hh as [Hh1 Hh2].
           apply andb_true_iff in Hl as [Hl1 Hl2].
           apply Z.leb_le in Hh1, Hh2, Hl1, Hl2.
           set (cp := 65536 + (c - 55296) * 1024 + (lo - 56320)).
           assert (65536 <= cp < 1114112) as Hcp by (unfold cp; lia).
           destruct (utf8CodePoint_bytes cp ltac:(lia)) as (Pb & _ & _).
           assert (length (utf8CodePoint cp) = 4%nat) as P4.
           { unfold utf8CodePoint.
             destruct (Z.ltb_spec cp 128); [lia|].
             destruct (Z.ltb_spec cp 2048); [lia|].
             destruct (Z.ltb_spec cp 65536); [lia | reflexivity]. }
           destruct (IH r' ltac:(lia) Hr') as [Rb Rl].
           split; [apply Forall_app; auto|].
           rewrite length_app, P4. lia.
        -- split; [apply Forall_app; auto|].
           rewrite length_app, F3. cbn [length] in IHl. lia.
    + destruct (isLowSurrogate c).
      * split; [apply Forall_app; auto|].
        rewrite length_app, F3. cbn [length]. lia.
      * destruct (utf8CodePoint_bytes c ltac:(lia)) as (Cb & Cl & C3).
        split; [apply Forall_app; auto|].
        rewrite length_app. specialize (C3 ltac:(lia)). cbn [length]. lia.
Qed.

(** X4: for ASCII text [encodeString] returns the length of the text as a
    little-endian 32-bit number followed by the character codes, one byte
    each, with no terminator. *)
Theorem encodeString_ascii :
  forall s : jsstring,
    forallb isAscii s = true ->
    encodeString s = Ok (encodeU32LE (Z.of_nat (length s)) ++ s)
    /\ ((length s < 256)%nat ->
        encodeString s = Ok ([Z.of_nat (length s); 0; 0; 0] ++ s)).
Proof.
  intros s H. rewrite encodeString_eq, (TEXT_ENCODER_encode_ascii s H).
  split; [reflexivity|]. intros Hl.
  rewrite encodeU32LE_small by lia. reflexivity.
Qed.

Lemma encodeString_ascii_witness :
  encodeString (str "TST") = Ok (encodeU32LE 3 ++ str "TST")
  /\ ((3 < 256)%nat ->
      encodeString (str "TST") = Ok ([3; 0; 0; 0] ++ str "TST")).
Proof. apply (encodeString_ascii (str "TST")). reflexivity. Defined.

(** X5: [encodeString] never fails.  On a string of UTF-16 code units the
    result is a byte array, its first four bytes give, little-endian and
    modulo [2^32], the number of bytes that follow, and that number lies
    between the length of the string and three times that length. *)
Theorem encodeString_counts_bytes :
  forall s : jsstring,
    Forall validUnit s ->
    exists bs,
      encodeString s = Ok bs
      /\ Forall isByte bs
      /\ (4 + length s <= length bs <= 4 + 3 * length s)%nat
      /\ decodeU128LE (firstn 4 bs)
         = Z.of_nat (length bs - 4) mod 2 ^ 32
      /\ skipn 4 bs = TEXT_ENCODER_encode s.
Proof.
  intros s Hv.
  destruct (TEXT_ENCODER_encode_bounds (length s) s (le_n _) Hv) as [Hb Hl].
  eexists. split; [apply encodeString_eq|]. split; [|split; [|split]].
  - apply Forall_app. split; [apply encodeU32LE_bytes | exact Hb].
  - rewrite length_app, encodeU32LE_length. lia.
  - rewrite firstn_app, encodeU32LE_length, Nat.sub_diag, firstn_O.
    rewrite app_nil_r, firstn_all2 by (rewrite encodeU32LE_length; lia).
    rewrite encodeU32LE_value, length_app, encodeU32LE_length.
    do 2 f_equal. lia.
  - rewrite skipn_app, encodeU32LE_length, Nat.sub_diag.
    rewrite skipn_all2 by (rewrite encodeU32LE_length; lia). reflexivity.
Qed.

Lemma encodeString_counts_bytes_witness :
  exists bs,
    encodeString [233; 8364; 55357; 56832] = Ok bs
    /\ Forall isByte bs
    /\ (4 + 4 <= length bs <= 4 + 3 * 4)%nat
    /\ decodeU128LE (firstn 4 bs) = Z.of_nat (length bs - 4) mod 2 ^ 32
    /\ skipn 4 bs = TEXT_ENCODER_encode [233; 8364; 55357; 56832].
Proof.
  apply (encodeString_counts_bytes [233; 8364; 55357; 56832]).
  repeat (apply Forall_cons; [unfold validUnit; lia|]). apply Forall_nil.
Defined.

(** X6: the length prefix makes the string encoding self-delimiting: when
    two encoded strings (of fewer than [2^32] bytes), each followed by
    further bytes, give the same byte sequence, the strings have the same
    UTF-8 bytes and the bytes that follow are the same. *)
Theorem encodeString_self_delimiting :
  forall (a b : jsstring) (ea eb ra rb : bytes),
    Z.of_nat (length (TEXT_ENCODER_encode a)) < 2 ^ 32 ->
    Z.of_nat (length (TEXT_ENCODER_encode b)) < 2 ^ 32 ->
    encodeString a = Ok ea -> encodeString b = Ok eb ->
    ea ++ ra = eb ++ rb ->
    TEXT_ENCODER_encode a = TEXT_ENCODER_encode b /\ ea = eb /\ ra = rb.
Proof.
  intros a b ea eb ra rb Ha Hb Hea Heb H.
  rewrite encodeString_eq in Hea, Heb.
  assert (ea = encodeU32LE (Z.of_nat (length (TEXT_ENCODER_encode a)))
                 ++ TEXT_ENCODER_encode a) as -> by congruence.
  assert (eb = encodeU32LE (Z.of_nat (length (TEXT_ENCODER_encode b)))
                 ++ TEXT_ENCODER_encode b) as -> by congruence.
  rewrite <- !app_assoc in H.
  apply app_inj_length in H as [Hlen H]; [|reflexivity].
  apply encodeU32LE_inj in Hlen; [|lia|lia].
  apply Nat2Z.inj in Hlen.
  apply app_inj_length in H as [Hu Hr]; [|exact Hlen].
  rewrite Hu. auto.
Qed.

Lemma encodeString_self_delimiting_witness :
  TEXT_ENCODER_encode (str "Test") = TEXT_ENCODER_encode (str "Test")
  /\ encodeU32LE 4 ++ str "Test" = encodeU32LE 4 ++ str "Test"
  /\ [9] = [9].
Proof.
  apply (encodeString_self_delimiting (str "Test") (str "Test")
           (encodeU32LE 4 ++ str "Test") (encodeU32LE 4 ++ str "Test")
           [9] [9]);
    try reflexivity; vm_compute; reflexivity.
Defined.

(** ** Hexadecimal text and bytes *)

Lemma lowerHex_isDigit (c : Z) :
  isLowerHexDigit c = true -> isDigitOf 16 c = true.
Proof.
  unfold isLowerHexDigit. intros H. apply isDigitOf_16.
  apply orb_true_iff in H as [H|H]; apply andb_true_iff in H as [H1 H2];
    apply Z.leb_le in H1, H2; lia.
Qed.

Lemma evenLength_double (s : jsstring) (n : nat) :
  length s = (2 * n)%nat -> evenLength s = true.
Proof.
  intros H. unfold evenLength. rewrite H, Nat.mul_comm.
  now rewrite Nat.Div0.mod_mul.
Qed.

Lemma hexToBytes_prefixed (p : Z) (h : jsstring) :
  p = 120 \/ p = 88 ->
  isHexString h = true -> evenLength h = true ->
  hexToBytes (48 :: p :: h) = Ok (hexPairs h).
Proof.
  intros Hp Hh He. rewrite hexToBytes_unfold.
  assert (strip0xi (48 :: p :: h) = h) as ->
      by (destruct Hp as [-> | ->]; reflexivity).
  rewrite He. cbn [negb]. now rewrite hexLoop_hex.
Qed.

Lemma digitValue_asciiLower (radix c : Z) :
  digitValue radix (asciiLower c) = digitValue radix c.
Proof.
  unfold asciiLower.
  destruct ((65 <=? c) && (c <=? 90)) eqn:E; [|reflexivity].
  unfold digitValue. rewrite E.
  apply andb_true_iff in E as [E1 E2]. apply Z.leb_le in E1, E2.
  assert ((48 <=? c + 32) && (c + 32 <=? 57) = false) as ->
      by (apply andb_false_iff; right; apply Z.leb_gt; lia).
  assert ((97 <=? c + 32) && (c + 32 <=? 122) = true) as ->
      by (apply andb_true_iff; split; apply Z.leb_le; lia).
  assert ((48 <=? c) && (c <=? 57) = false) as ->
      by (apply andb_false_iff; right; apply Z.leb_gt; lia).
  assert ((97 <=? c) && (c <=? 122) = false) as ->
      by (apply andb_false_iff; left; apply Z.leb_gt; lia).
  replace (c + 32 - 87) with (c - 55) by lia. reflexivity.
Qed.

Lemma hexPairs_asciiLower (h : jsstring) :
  hexPairs (map asciiLower h) = hexPairs h.
Proof.
  induction h as [| a | a b r IH] using list_pair_ind; try reflexivity.
  cbn [map hexPairs]. rewrite IH. f_equal.
  unfold digitsValue. cbn [fold_left].
  now rewrite !digitValue_asciiLower.
Qed.

Lemma evenLength_map (f : Z -> Z) (s : jsstring) :
  evenLength (map f s) = evenLength s.
Proof. unfold evenLength. now rewrite length_map. Qed.

(** X7: hexadecimal text written by [bytesToHex] is read back by
    [hexToBytes] as the same bytes, with or without a [0x] in front. *)
Theorem hexToBytes_bytesToHex :
  forall bs : bytes,
    Forall isByte bs ->
    hexToBytes (bytesToHex bs) = Ok bs
    /\ hexToBytes (str "0x" ++ bytesToHex bs) = Ok bs
    /\ length (bytesToHex bs) = (2 * length bs)%nat.
Proof.
  intros bs Hb. destruct (bytesToHex_spec bs Hb) as (_ & Hl & Hlow & Hp).
  assert (isHexString (bytesToHex bs) = true) as Hh.
  { unfold isHexString. apply forallb_forall. intros c Hc.
    apply lowerHex_isDigit. exact (forallb_In _ _ _ Hlow Hc). }
  pose proof (evenLength_double _ _ Hl) as He.
  split; [|split; [|exact Hl]].
  - rewrite hexToBytes_hex by assumption. now rewrite Hp.
  - change (str "0x" ++ bytesToHex bs) with (48 :: 120 :: bytesToHex bs).
    rewrite hexToBytes_prefixed by auto. now rewrite Hp.
Qed.

Lemma hexToBytes_bytesToHex_witness :
  hexToBytes (bytesToHex [0; 171; 255]) = Ok [0; 171; 255]
  /\ hexToBytes (str "0x" ++ bytesToHex [0; 171; 255]) = Ok [0; 171; 255]
  /\ length (bytesToHex [0; 171; 255]) = (2 * 3)%nat.
Proof.
  apply (hexToBytes_bytesToHex [0; 171; 255]).
  repeat (apply Forall_cons; [unfold isByte; lia|]). apply Forall_nil.
Defined.

(** X8: on an even number of hexadecimal digits, neither a [0x] or [0X]
    prefix nor the case of the letters changes what [hexToBytes] returns,
    which is one byte for every two digits. *)
Theorem hexToBytes_prefix_and_case :
  forall h : jsstring,
    isHexString h = true -> evenLength h = true ->
    hexToBytes (str "0x" ++ h) = hexToBytes h
    /\ hexToBytes (str "0X" ++ h) = hexToBytes h
    /\ hexToBytes (map asciiLower h) = hexToBytes h
    /\ exists bs, hexToBytes h = Ok bs
                  /\ (length h = 2 * length bs)%nat.
Proof.
  intros h Hh He.
  rewrite (hexToBytes_hex h Hh He).
  change (str "0x" ++ h) with (48 :: 120 :: h).
  change (str "0X" ++ h) with (48 :: 88 :: h).
  rewrite !hexToBytes_prefixed by auto.
  rewrite hexToBytes_hex, hexPairs_asciiLower
    by (try apply hex_lower; try rewrite evenLength_map; assumption).
  repeat split. exists (hexPairs h). split; [reflexivity|].
  rewrite hexPairs_length. unfold evenLength in He. apply Nat.eqb_eq in He.
  pose proof (Nat.div_mod_eq (length h) 2). lia.
Qed.

Lemma hexToBytes_prefix_and_case_witness :
  hexToBytes (str "0x" ++ str "ABcd") = hexToBytes (str "ABcd")
  /\ hexToBytes (str "0X" ++ str "ABcd") = hexToBytes (str "ABcd")
  /\ hexToBytes (map asciiLower (str "ABcd")) = hexToBytes (str "ABcd")
  /\ exists bs, hexToBytes (str "ABcd") = Ok bs
                /\ (length (str "ABcd") = 2 * length bs)%nat.
Proof.
  apply (hexToBytes_prefix_and_case (str "ABcd")); reflexivity.
Defined.

(** ** Amounts *)

Lemma digits_not_point (s : jsstring) :
  forallb (isDigitOf 10) s = true -> forall x, In x s -> notPoint x = true.
Proof.
  intros H x Hx. unfold notPoint.
  pose proof (proj1 (isDigitOf_10 x) (forallb_In _ _ _ H Hx)).
  destruct (Z.eqb_spec x 46); [lia | reflexivity].
Qed.

Lemma pointed_parts (ip fp : jsstring) :
  forallb (isDigitOf 10) ip = true -> forallb (isDigitOf 10) fp = true ->
  integerDigits (ip ++ 46 :: fp) = ip
  /\ fractionDigits (ip ++ 46 :: fp) = fp.
Proof.
  intros Hi Hf. unfold integerDigits, fractionDigits. split.
  - apply takeWhile_stop; [now apply digits_not_point | reflexivity].
  - rewrite dropWhile_stop by reflexivity.
    rewrite dropWhile_all by (now apply digits_not_point). reflexivity.
Qed.

Lemma digitsValue_orElse (s : jsstring) :
  digitsValue 10 (orElse s (str "0")) = digitsValue 10 s.
Proof. destruct s; reflexivity. Qed.

(** X9: the amount is read at a fixed scale of 18 places: for integer
    digits [ip] and at most 18 fractional digits [fp], the string
    [ip.fp] parses to [ip * 10^18 + fp * 10^(18 - length fp)], which is
    never negative. *)
Theorem parseAmountToU128_fixed_point :
  forall ip fp : jsstring,
    forallb (isDigitOf 10) ip = true ->
    forallb (isDigitOf 10) fp = true ->
    (length fp <= 18)%nat ->
    parseAmountToU128 (ip ++ 46 :: fp)
    = Ok (digitsValue 10 ip * 10 ^ 18
          + digitsValue 10 fp * 10 ^ Z.of_nat (18 - length fp))
    /\ 0 <= digitsValue 10 ip * 10 ^ 18
            + digitsValue 10 fp * 10 ^ Z.of_nat (18 - length fp).
Proof.
  intros ip fp Hi Hf Hl.
  destruct (pointed_parts ip fp Hi Hf) as [Ei Ef].
  assert (isDecimalAmount (ip ++ 46 :: fp) = true) as Hd.
  { unfold isDecimalAmount. rewrite Ei, Ef, Hi, Hf. cbn [andb].
    now apply Nat.leb_le. }
  destruct (parseAmountToU128_decimal _ Hd) as [Hp _].
  rewrite Ei, Ef in Hp.
  assert (digitsValue 10 (orElse ip (str "0") ++ padEnd fp 18 48)
          = digitsValue 10 ip * 10 ^ 18
            + digitsValue 10 fp * 10 ^ Z.of_nat (18 - length fp)) as E.
  { unfold padEnd.
    rewrite digitsValue_app, digitsValue_orElse, length_app, repeat_length.
    rewrite digitsValue_app, digitsValue_zeros, repeat_length.
    replace (length fp + (18 - length fp))%nat with 18%nat by lia.
    simpl Z.of_nat at 1. lia. }
  rewrite <- E. split; [exact Hp|].
  pose proof (digitsValue_nonneg _ Hi). pose proof (digitsValue_nonneg _ Hf).
  rewrite E. assert (0 < 10 ^ Z.of_nat (18 - length fp))
    by (apply Z.pow_pos_nonneg; lia). nia.
Qed.

Lemma parseAmountToU128_fixed_point_witness :
  parseAmountToU128 (str "12" ++ 46 :: str "5")
  = Ok (digitsValue 10 (str "12") * 10 ^ 18
        + digitsValue 10 (str "5") * 10 ^ Z.of_nat (18 - 1))
  /\ 0 <= digitsValue 10 (str "12") * 10 ^ 18
          + digitsValue 10 (str "5") * 10 ^ Z.of_nat (18 - 1).
Proof.
  apply (parseAmountToU128_fixed_point (str "12") (str "5"));
    [reflexivity | reflexivity | simpl; lia].
Defined.

(** X10: more than 18 digits after the point are refused: for integer
    digits [ip] and 19 or more fractional digits [fp], [ip.fp] raises
    'Too many decimal places for Amount', and so does the encoder. *)
Theorem parseAmountToU128_too_many_decimals :
  forall ip fp : jsstring,
    forallb (isDigitOf 10) ip = true ->
    forallb (isDigitOf 10) fp = true ->
    (18 < length fp)%nat ->
    parseAmountToU128 (ip ++ 46 :: fp)
    = Throw (Error "Too many decimal places for Amount")
    /\ encodeAmount (ip ++ 46 :: fp)
       = Throw (Error "Too many decimal places for Amount").
Proof.
  intros ip fp Hi Hf Hl.
  assert (parseAmountToU128 (ip ++ 46 :: fp)
          = Throw (Error "Too many decimal places for Amount")) as Hp.
  { rewrite (parse_raw_point (ip ++ 46 :: fp) ip fp).
    - assert (startsWith (ip ++ [46]) (str "-") = false) as ->.
      { destruct ip as [|c r]; [reflexivity|]. apply startsWith_minus.
        simpl in Hi. apply andb_true_iff in Hi as [Hc _].
        apply isDigitOf_10 in Hc. lia. }
      unfold amountOfParts, integerDigits.
      rewrite takeWhile_every by (now apply digits_not_point).
      replace (Z.to_nat AMOUNT_DECIMALS) with 18%nat by reflexivity.
      apply Nat.ltb_lt in Hl. now rewrite Hl.
    - apply digits_raw. intros c Hc. apply in_app_or in Hc as [Hc|[<-|Hc]].
      + pose proof (proj1 (isDigitOf_10 c) (forallb_In _ _ _ Hi Hc)). lia.
      + lia.
      + pose proof (proj1 (isDigitOf_10 c) (forallb_In _ _ _ Hf Hc)). lia.
    - intros c Hc.
      pose proof (proj1 (isDigitOf_10 c) (forallb_In _ _ _ Hi Hc)). lia. }
  split; [exact Hp|]. unfold encodeAmount. now rewrite Hp.
Qed.

Lemma parseAmountToU128_too_many_decimals_witness :
  parseAmountToU128 (str "1" ++ 46 :: repeat 48 19)
  = Throw (Error "Too many decimal places for Amount")
  /\ encodeAmount (str "1" ++ 46 :: repeat 48 19)
     = Throw (Error "Too many decimal places for Amount").
Proof.
  apply (parseAmountToU128_too_many_decimals (str "1") (repeat 48 19));
    [reflexivity | reflexivity | simpl; lia].
Defined.

(** X11: white space around the amount, underscores anywhere in it and one
    leading plus sign do not change the result: when trimming the input and
    removing its underscores leaves a decimal amount string, or one behind a
    plus sign, the input parses as that string. *)
Theorem parseAmountToU128_ignores_separators :
  forall input s : jsstring,
    isDecimalAmount s = true ->
    rawAmount input = s \/ rawAmount input = 43 :: s ->
    parseAmountToU128 input = parseAmountToU128 s.
Proof.
  intros input s Hd Hraw.
  pose proof (decimal_chars s Hd) as Hch.
  rewrite (parseAmountToU128_unfold input), (parseAmountToU128_unfold s).
  rewrite (digits_raw s Hch).
  destruct Hraw as [-> | ->]; [reflexivity|].
  assert (startsWith (43 :: s) (str "-") = false) as ->
      by (apply startsWith_minus; lia).
  cbn [stripPlus]. rewrite Z.eqb_refl.
  destruct s as [|c r]; [vm_compute; reflexivity|].
  assert (46 <= c <= 57) as Hc by (apply Hch; now left).
  rewrite startsWith_minus by lia.
  unfold stripPlus. destruct (Z.eqb_spec c 43); [lia | reflexivity].
Qed.

Lemma parseAmountToU128_ignores_separators_witness :
  parseAmountToU128 (str " +1_000.5 ") = parseAmountToU128 (str "1000.5").
Proof.
  apply (parseAmountToU128_ignores_separators
           (str " +1_000.5 ") (str "1000.5"));
    [reflexivity | right; reflexivity].
Defined.

(** ** Owners, payloads and envelopes *)

Lemma strip0xi_length (s : jsstring) :
  length (strip0xi s) = length s
  \/ length s = S (S (length (strip0xi s))).
Proof.
  unfold strip0xi. destruct s as [|a [|b r]]; auto.
  destruct ((a =? 48) && ((b =? 120) || (b =? 88))); simpl; auto.
Qed.

Section PayloadAndEnvelope.

Variable toLowerCase : jsstring -> jsstring.

Lemma encodeCreateTokenRequest_Ok (p : CreateTokenPayload) (out : bytes) :
  encodeCreateTokenRequest toLowerCase p = Ok out ->
  exists o a,
    encodeAccountOwner toLowerCase (owner p) = Ok o
    /\ encodeAmount (supply p) = Ok a
    /\ out = o ++ (encodeU32LE
                     (Z.of_nat (length (TEXT_ENCODER_encode (name p))))
                   ++ TEXT_ENCODER_encode (name p)
                   ++ encodeU32LE
                        (Z.of_nat (length (TEXT_ENCODER_encode (symbol p))))
                   ++ TEXT_ENCODER_encode (symbol p)
                   ++ ToUint8 (decimals p) :: a).
Proof.
  unfold encodeCreateTokenRequest. intros H.
  apply bind_Ok in H as (o & Ho & H).
  rewrite encodeTokenMetadata_eq in H. cbn [bind] in H.
  apply bind_Ok in H as (a & Ha & H).
  rewrite concatBytes_concat in H. cbn [concat] in H.
  rewrite app_nil_r in H.
  exists o, a. split; [exact Ho|]. split; [exact Ha|].
  assert (Ok out = Ok out) as _ by reflexivity.
  rewrite <- !app_assoc in H. cbn [app] in H. congruence.
Qed.

Lemma encodeEvmAccountSignature_Ok (signatureHex address : jsstring)
  (out : bytes) :
  encodeEvmAccountSignature toLowerCase signatureHex address = Ok out ->
  exists sigBytes addressBytes,
    hexToBytes signatureHex = Ok sigBytes
    /\ length sigBytes = 65%nat
    /\ hexToBytes (normalizedOwner toLowerCase address) = Ok addressBytes
    /\ length addressBytes = 20%nat
    /\ out = encodeU32LE 2 ++ sigBytes ++ addressBytes.
Proof.
  unfold encodeEvmAccountSignature.
  fold (normalizedOwner toLowerCase address). intros H.
  apply bind_Ok in H as (sb & Hs & H).
  destruct (Nat.eqb_spec (length sb) 65) as [Hl|Hl];
    cbn [negb] in H; [|discriminate].
  apply bind_Ok in H as (ab & Ha & H).
  destruct (Nat.eqb_spec (length ab) 20) as [Hl'|Hl'];
    cbn [negb] in H; [|discriminate].
  rewrite concatBytes_concat in H. cbn [concat] in H.
  rewrite app_nil_r in H.
  exists sb, ab. repeat split; try assumption. congruence.
Qed.

(** X12: the only failures of [encodeCreateTokenRequest] are those of the
    owner and of the amount, in that order: it raises [e] exactly when the
    owner encoder raises [e], or the owner encodes and the amount encoder
    raises [e]; the strings and the decimals never make it fail. *)
Theorem encodeCreateTokenRequest_failures :
  forall (p : CreateTokenPayload) (e : exn),
    encodeCreateTokenRequest toLowerCase p = Throw e
    <-> encodeAccountOwner toLowerCase (owner p) = Throw e
        \/ ((exists o, encodeAccountOwner toLowerCase (owner p) = Ok o)
            /\ encodeAmount (supply p) = Throw e).
Proof.
  intros p e. unfold encodeCreateTokenRequest.
  rewrite encodeTokenMetadata_eq.
  destruct (encodeAccountOwner toLowerCase (owner p)) as [o|e1];
    cbn [bind].
  - destruct (encodeAmount (supply p)) as [a|e2]; cbn [bind].
    + rewrite concatBytes_concat. split; [discriminate|].
      intros [H | [_ H]]; discriminate.
    + split.
      * intros H. right. split; [now exists o | exact H].
      * intros [H | [_ H]]; [discriminate | exact H].
  - split.
    + intros H. now left.
    + intros [H | [[o H] _]]; [exact H | discriminate].
Qed.

(** X13: a payload can be taken apart again.  When two requests give the
    same payload bytes and their owner encodings have the same length (the
    strings being shorter than [2^32] bytes), they have the same owner
    bytes, the same UTF-8 name and symbol, the same decimals byte and the
    same amount bytes. *)
Theorem encodeCreateTokenRequest_fields_recoverable :
  forall (p q : CreateTokenPayload) (o1 o2 out : bytes),
    encodeAccountOwner toLowerCase (owner p) = Ok o1 ->
    encodeAccountOwner toLowerCase (owner q) = Ok o2 ->
    length o1 = length o2 ->
    Z.of_nat (length (TEXT_ENCODER_encode (name p))) < 2 ^ 32 ->
    Z.of_nat (length (TEXT_ENCODER_encode (name q))) < 2 ^ 32 ->
    Z.of_nat (length (TEXT_ENCODER_encode (symbol p))) < 2 ^ 32 ->
    Z.of_nat (length (TEXT_ENCODER_encode (symbol q))) < 2 ^ 32 ->
    encodeCreateTokenRequest toLowerCase p = Ok out ->
    encodeCreateTokenRequest toLowerCase q = Ok out ->
    o1 = o2
    /\ TEXT_ENCODER_encode (name p) = TEXT_ENCODER_encode (name q)
    /\ TEXT_ENCODER_encode (symbol p) = TEXT_ENCODER_encode (symbol q)
    /\ ToUint8 (decimals p) = ToUint8 (decimals q)
    /\ encodeAmount (supply p) = encodeAmount (supply q).
Proof.
  intros p q o1 o2 out Ho1 Ho2 Hlen Hn1 Hn2 Hs1 Hs2 Hp Hq.
  apply encodeCreateTokenRequest_Ok in Hp as (o1' & a1 & Ho1' & Ha1 & E1).
  apply encodeCreateTokenRequest_Ok in Hq as (o2' & a2 & Ho2' & Ha2 & E2).
  assert (o1' = o1) as -> by congruence.
  assert (o2' = o2) as -> by congruence.
  rewrite E1 in E2.
  apply app_inj_length in E2 as [Eo E]; [|exact Hlen].
  apply app_inj_length in E as [En E]; [|reflexivity].
  apply encodeU32LE_inj in En; [|lia|lia]. apply Nat2Z.inj in En.
  apply app_inj_length in E as [EN E]; [|exact En].
  apply app_inj_length in E as [Es E]; [|reflexivity].
  apply encodeU32LE_inj in Es; [|lia|lia]. apply Nat2Z.inj in Es.
  apply app_inj_length in E as [ES E]; [|exact Es].
  injection E as Ed Ea.
  repeat split; try assumption. congruence.
Qed.

Variable keccak_256 : bytes -> bytes.
Variable personal_sign : jsstring -> jsstring -> result jsstring.

Lemma signingMessage_Ok (walletAddress : jsstring) (form : Form)
  (m : jsstring) :
  signingMessage toLowerCase keccak_256 walletAddress form = Ok m ->
  walletAddress <> []
  /\ exists payloadBytes,
       encodeCreateTokenRequest toLowerCase (formPayload walletAddress form)
       = Ok payloadBytes.
Proof.
  unfold signingMessage. destruct walletAddress as [|c r]; [discriminate|].
  intros H. apply bind_Ok in H as (pb & Hp & _).
  split; [discriminate | now exists pb].
Qed.

Lemma signWithMetaMask_Ok (walletAddress : jsstring) (form : Form)
  (signatureHex : jsstring) :
  signWithMetaMask toLowerCase keccak_256 personal_sign walletAddress form
  = Ok signatureHex ->
  exists message rawSignature sigBytes addressBytes,
    signingMessage toLowerCase keccak_256 walletAddress form = Ok message
    /\ personal_sign message walletAddress = Ok rawSignature
    /\ hexToBytes rawSignature = Ok sigBytes
    /\ length sigBytes = 65%nat
    /\ length addressBytes = 20%nat
    /\ encodeAccountOwner toLowerCase walletAddress
       = Ok (encodeU32LE 2 ++ addressBytes)
    /\ signatureHex = bytesToHex (encodeU32LE 2 ++ sigBytes ++ addressBytes)
    /\ Forall isByte (encodeU32LE 2 ++ sigBytes ++ addressBytes).
Proof.
  unfold signWithMetaMask. intros H.
  apply bind_Ok in H as (m & Hm & H).
  apply bind_Ok in H as (raw & Hraw & H).
  apply bind_Ok in H as (env & Henv & H).
  apply encodeEvmAccountSignature_Ok in Henv
    as (sb & ab & Hs & Hl & Ha & Hl' & ->).
  exists m, raw, sb, ab.
  repeat (split; [assumption|]).
  destruct (signingMessage_Ok _ _ _ Hm) as [_ [pb Hp]].
  apply encodeCreateTokenRequest_Ok in Hp as (o & _ & Ho & _).
  cbn [formPayload owner] in Ho.
  pose proof (hexToBytes_length _ _ Hs) as [_ Fs].
  pose proof (hexToBytes_length _ _ Ha) as [Hn Fa].
  split; [|split].
  - revert Ho. unfold encodeAccountOwner.
    fold (normalizedOwner toLowerCase walletAddress).
    destruct (Nat.eqb_spec (length (normalizedOwner toLowerCase walletAddress))
                40) as [E40|N40].
    + rewrite Ha. cbn [bind]. rewrite concatBytes_concat. cbn [concat].
      now rewrite app_nil_r.
    + destruct (Nat.eqb_spec
                  (length (normalizedOwner toLowerCase walletAddress)) 64)
        as [E64|N64]; [|discriminate].
      destruct (strip0xi_length (normalizedOwner toLowerCase walletAddress));
        lia.
  - congruence.
  - apply Forall_app. split; [apply encodeU32LE_bytes|].
    apply Forall_app. split; assumption.
Qed.

(** X14: whenever [signWithMetaMask] returns, the wallet was asked to sign
    the message, its answer decoded to 65 bytes, and the returned text is
    the hexadecimal form (178 lower-case digits, no prefix) of tag 2, those
    65 bytes and 20 address bytes; the owner signed in the payload is the
    20-byte variant with the same 20 bytes.  A 32-byte owner never gets a
    signature this way. *)
Theorem signWithMetaMask_envelope_matches_owner :
  forall (walletAddress : jsstring) (form : Form) (signatureHex : jsstring),
    signWithMetaMask toLowerCase keccak_256 personal_sign walletAddress form
    = Ok signatureHex ->
    exists message rawSignature sigBytes addressBytes,
      signingMessage toLowerCase keccak_256 walletAddress form = Ok message
      /\ personal_sign message walletAddress = Ok rawSignature
      /\ hexToBytes rawSignature = Ok sigBytes
      /\ length sigBytes = 65%nat
      /\ length addressBytes = 20%nat
      /\ encodeAccountOwner toLowerCase walletAddress
         = Ok (encodeU32LE 2 ++ addressBytes)
      /\ length signatureHex = 178%nat
      /\ forallb isLowerHexDigit signatureHex = true
      /\ hexToBytes signatureHex
         = Ok (encodeU32LE 2 ++ sigBytes ++ addressBytes).
Proof.
  intros walletAddress form signatureHex H.
  apply signWithMetaMask_Ok in H
    as (m & raw & sb & ab & Hm & Hraw & Hs & Hl & Hl' & Ho & -> & Fb).
  exists m, raw, sb, ab.
  repeat (split; [assumption|]).
  destruct (bytesToHex_spec _ Fb) as (_ & E2 & E3 & E4).
  split; [|split; [exact E3|]].
  - rewrite E2, !length_app, Hl, Hl'. reflexivity.
  - rewrite hexToBytes_hex.
    + now rewrite E4.
    + unfold isHexString. apply forallb_forall. intros c Hc.
      apply lowerHex_isDigit. exact (forallb_In _ _ _ E3 Hc).
    + exact (evenLength_double _ _ E2).
Qed.

(** X15: [signWithMetaMask] fails before the wallet is asked when no
    wallet is connected or when the payload does not encode: the outcome is
    then the same error whatever the wallet would answer.  Once the message
    is built, a refusal of the wallet is the outcome. *)
Theorem signWithMetaMask_guards :
  forall (walletAddress : jsstring) (form : Form),
    (walletAddress = [] ->
     forall wallet,
       signWithMetaMask toLowerCase keccak_256 wallet walletAddress form
       = Throw (Error "Connect MetaMask first."))
    /\ (forall e,
          walletAddress <> [] ->
          encodeCreateTokenRequest toLowerCase
            (formPayload walletAddress form) = Throw e ->
          forall wallet,
            signWithMetaMask toLowerCase keccak_256 wallet walletAddress form
            = Throw e)
    /\ (forall message e,
          signingMessage toLowerCase keccak_256 walletAddress form
          = Ok message ->
          personal_sign message walletAddress = Throw e ->
          signWithMetaMask toLowerCase keccak_256 personal_sign
            walletAddress form
          = Throw e).
Proof.
  intros walletAddress form. split; [|split].
  - intros -> wallet. reflexivity.
  - intros e Hw He wallet. unfold signWithMetaMask, signingMessage.
    destruct walletAddress as [|c r]; [congruence|].
    rewrite He. reflexivity.
  - intros m e Hm He. unfold signWithMetaMask. rewrite Hm. cbn [bind].
    rewrite He. reflexivity.
Qed.

End PayloadAndEnvelope.

Lemma encodeCreateTokenRequest_fields_recoverable_witness :
  [2; 0; 0; 0] ++ repeat 170 20 = [2; 0; 0; 0] ++ repeat 170 20
  /\ TEXT_ENCODER_encode (name samplePayload)
     = TEXT_ENCODER_encode (name samplePayload)
  /\ TEXT_ENCODER_encode (symbol samplePayload)
     = TEXT_ENCODER_encode (symbol samplePayload)
  /\ ToUint8 (decimals samplePayload) = ToUint8 (decimals samplePayload)
  /\ encodeAmount (supply samplePayload)
     = encodeAmount (supply samplePayload).
Proof.
  apply (encodeCreateTokenRequest_fields_recoverable toLowerCaseAscii
           samplePayload samplePayload
           ([2; 0; 0; 0] ++ repeat 170 20) ([2; 0; 0; 0] ++ repeat 170 20)
           ([2; 0; 0; 0] ++ repeat 170 20
            ++ [4; 0; 0; 0; 84; 101; 115; 116; 3; 0; 0; 0; 84; 83; 84; 9]
            ++ [0; 0; 0; 32; 151; 102; 64; 230;
                150; 190; 149; 2; 0; 0; 0; 0]));
    vm_compute; reflexivity.
Defined.

Lemma signWithMetaMask_envelope_matches_owner_witness :
  exists message rawSignature sigBytes addressBytes,
    signingMessage toLowerCaseAscii sampleHash evmOwner sampleForm
    = Ok message
    /\ sampleWallet message evmOwner = Ok rawSignature
    /\ hexToBytes rawSignature = Ok sigBytes
    /\ length sigBytes = 65%nat
    /\ length addressBytes = 20%nat
    /\ encodeAccountOwner toLowerCaseAscii evmOwner
       = Ok (encodeU32LE 2 ++ addressBytes)
    /\ length (bytesToHex (encodeU32LE 2 ++ (repeat 17 64 ++ [27])
                             ++ repeat 170 20)) = 178%nat
    /\ forallb isLowerHexDigit
         (bytesToHex (encodeU32LE 2 ++ (repeat 17 64 ++ [27])
                        ++ repeat 170 20)) = true
    /\ hexToBytes (bytesToHex (encodeU32LE 2 ++ (repeat 17 64 ++ [27])
                                 ++ repeat 170 20))
       = Ok (encodeU32LE 2 ++ sigBytes ++ addressBytes).
Proof.
  apply (signWithMetaMask_envelope_matches_owner toLowerCaseAscii
           sampleHash sampleWallet evmOwner sampleForm).
  vm_compute. reflexivity.
Defined.

Lemma signWithMetaMask_guards_witness :
  signWithMetaMask toLowerCaseAscii sampleHash sampleWallet
    evmOwner badSupplyForm
  = Throw (Error "Amount cannot be negative").
Proof.
  apply (proj1 (proj2 (signWithMetaMask_guards toLowerCaseAscii sampleHash
                         sampleWallet evmOwner badSupplyForm))).
  - discriminate.
  - vm_compute. reflexivity.
Defined.

Section OwnerAnyCase.

Variable toLowerCase : jsstring -> jsstring.

Hypothesis toLowerCase_ascii :
  forall s, forallb isAscii s = true -> toLowerCase s = map asciiLower s.

(** X16: an owner given as 40 hexadecimal digits encodes as tag 2 and
    the 20 bytes the digits denote, and one given as 64 digits as tag 1 and
    its 32 bytes, whatever the case of the letters and with or without a
    [0x] or [0X] in front. *)
Theorem encodeAccountOwner_hex_any_case :
  forall h owner_ : jsstring,
    isHexString h = true ->
    owner_ = h \/ owner_ = str "0x" ++ h \/ owner_ = str "0X" ++ h ->
    (length h = 40%nat ->
     encodeAccountOwner toLowerCase owner_ = Ok ([2; 0; 0; 0] ++ hexPairs h)
     /\ length (hexPairs h) = 20%nat)
    /\ (length h = 64%nat ->
        encodeAccountOwner toLowerCase owner_
        = Ok ([1; 0; 0; 0] ++ hexPairs h)
        /\ length (hexPairs h) = 32%nat).
Proof.
  intros h owner_ Hh Ho.
  assert ((2 <= length h)%nat ->
          normalizedOwner toLowerCase owner_ = map asciiLower h) as Hn.
  { intros Hl.
    destruct (normalizedOwner_hex toLowerCase toLowerCase_ascii h Hh Hl)
      as (E1 & E2 & E3).
    destruct Ho as [-> | [-> | ->]]; assumption. }
  pose proof (hex_lower h Hh) as Hlow.
  destruct (encodeAccountOwner_normalized toLowerCase owner_)
    as (H40 & H64 & _).
  split; intros Hl; rewrite Hn in * by lia;
    rewrite length_map, hexPairs_asciiLower in *; auto.
Qed.

End OwnerAnyCase.

Lemma encodeAccountOwner_hex_any_case_witness :
  (length (repeat 65 40) = 40%nat ->
   encodeAccountOwner toLowerCaseAscii (str "0X" ++ repeat 65 40)
   = Ok ([2; 0; 0; 0] ++ hexPairs (repeat 65 40))
   /\ length (hexPairs (repeat 65 40)) = 20%nat)
  /\ (length (repeat 65 40) = 64%nat ->
      encodeAccountOwner toLowerCaseAscii (str "0X" ++ repeat 65 40)
      = Ok ([1; 0; 0; 0] ++ hexPairs (repeat 65 40))
      /\ length (hexPairs (repeat 65 40)) = 32%nat).
Proof.
  apply (encodeAccountOwner_hex_any_case toLowerCaseAscii
           toLowerCaseAscii_ascii (repeat 65 40)).
  - reflexivity.
  - right. right. reflexivity.
Defined.

(** ** The submitted request *)

Lemma stripTrailingSlash_slash (e : jsstring) :
  stripTrailingSlash (e ++ [47]) = e.
Proof.
  unfold stripTrailingSlash. rewrite rev_app_distr. simpl.
  apply rev_involutive.
Qed.

Lemma stripTrailingSlash_other (e : jsstring) :
  (forall r, rev e <> 47 :: r) -> stripTrailingSlash e = e.
Proof.
  unfold stripTrailingSlash. intros H.
  destruct (rev e) as [|c r] eqn:E; [reflexivity|].
  destruct (Z.eqb_spec c 47) as [->|]; [|reflexivity].
  exfalso. now apply (H r).
Qed.

Section SubmitProperties.

Variable toLowerCase : jsstring -> jsstring.
Variable keccak_256 : bytes -> bytes.
Variable personal_sign : jsstring -> jsstring -> result jsstring.

(** X17: a pasted signature is sent as it is, trimmed: [submitToken] then
    neither asks the wallet nor encodes anything, so the request is built
    whatever the wallet is and even when the amount or the owner of the form
    would not encode. *)
Theorem submitRequest_pasted_signature :
  forall (walletAddress : jsstring) (form : Form) (fields : SubmitFields),
    trim (form_signature fields) <> [] ->
    forall hash wallet,
      submitRequest toLowerCase hash wallet walletAddress form fields
      = Ok (stripTrailingSlash (form_endpoint fields)
              ++ str "/chains/" ++ form_chainId fields
              ++ str "/applications/" ++ form_tokenFactory fields,
            {| var_owner := trim (form_owner form);
               var_name := trim (form_tokenName form);
               var_symbol := trim (form_tokenSymbol form);
               var_decimals := match form_decimals form with
                               | NaN => Int 0
                               | d => d
                               end;
               var_supply := trim (form_supply form);
               var_sig := trim (form_signature fields) |}).
Proof.
  intros walletAddress form fields Hsig hash wallet.
  unfold submitRequest.
  destruct (trim (form_signature fields)) as [|c r]; [congruence|].
  reflexivity.
Qed.

(** X18: without a pasted signature the outcome follows the wallet path:
    with no wallet connected the request is refused with 'Signature is
    required', an error of [signWithMetaMask] is the outcome, and a
    signature it returns is sent as the [sig] variable while the other
    variables are the trimmed fields of the form. *)
Theorem submitRequest_wallet_signature :
  forall (walletAddress : jsstring) (form : Form) (fields : SubmitFields),
    trim (form_signature fields) = [] ->
    (walletAddress = [] ->
     submitRequest toLowerCase keccak_256 personal_sign
       walletAddress form fields
     = Throw (Error
         "Signature is required. Connect MetaMask or paste a signature hex."))
    /\ (forall e,
          walletAddress <> [] ->
          signWithMetaMask toLowerCase keccak_256 personal_sign
            walletAddress form = Throw e ->
          submitRequest toLowerCase keccak_256 personal_sign
            walletAddress form fields = Throw e)
    /\ (forall signatureHex,
          walletAddress <> [] ->
          signWithMetaMask toLowerCase keccak_256 personal_sign
            walletAddress form = Ok signatureHex ->
          exists url vars,
            submitRequest toLowerCase keccak_256 personal_sign
              walletAddress form fields = Ok (url, vars)
            /\ var_sig vars = signatureHex
            /\ length (var_sig vars) = 178%nat
            /\ var_name vars = name (formPayload walletAddress form)
            /\ var_symbol vars = symbol (formPayload walletAddress form)
            /\ var_decimals vars = decimals (formPayload walletAddress form)
            /\ var_supply vars = supply (formPayload walletAddress form)).
Proof.
  intros walletAddress form fields Hsig. unfold submitRequest.
  rewrite Hsig. split; [|split].
  - intros ->. reflexivity.
  - intros e Hw He. destruct walletAddress as [|c r]; [congruence|].
    rewrite He. reflexivity.
  - intros signatureHex Hw Hs.
    destruct walletAddress as [|c r]; [congruence|].
    rewrite Hs. cbn [bind].
    apply signWithMetaMask_Ok in Hs
      as (m & raw & sb & ab & _ & _ & _ & Hl & Hl' & _ & E & Fb).
    destruct (bytesToHex_spec _ Fb) as (_ & E2 & _ & _).
    assert (length signatureHex = 178%nat) as H178
        by (rewrite E, E2, !length_app, Hl, Hl'; reflexivity).
    destruct signatureHex as [|x xs]; [discriminate|].
    eexists. eexists. split; [reflexivity|].
    cbn [var_sig var_name var_symbol var_decimals var_supply
         formPayload name symbol decimals supply].
    repeat split. exact H178.
Qed.

Lemma submitRequest_url (walletAddress : jsstring) (form : Form)
  (fields : SubmitFields) (url : jsstring) (vars : Variables) :
  submitRequest toLowerCase keccak_256 personal_sign walletAddress form fields
  = Ok (url, vars) ->
  url = stripTrailingSlash (form_endpoint fields)
          ++ str "/chains/" ++ form_chainId fields
          ++ str "/applications/" ++ form_tokenFactory fields.
Proof.
  unfold submitRequest. intros H. apply bind_Ok in H as (sg & _ & H).
  destruct sg; [discriminate|]. congruence.
Qed.

(** X19: one trailing slash of the endpoint is dropped and no more.
    Whatever the endpoint [e] is, also when it ends with a slash itself, a
    request built for [e/] has the URL [e/chains/.../applications/...], so
    that [e//] keeps one slash; such a request is built when a signature is
    pasted.  When [e] does not end with a slash, [e] and [e/] lead to the
    same request, whose URL starts with [e]. *)
Theorem submitRequest_endpoint_slash :
  forall (walletAddress : jsstring) (form : Form)
         (signature chainId tokenFactory endpoint : jsstring),
    (forall url vars,
        submitRequest toLowerCase keccak_256 personal_sign walletAddress form
          {| form_signature := signature; form_chainId := chainId;
             form_tokenFactory := tokenFactory;
             form_endpoint := endpoint ++ str "/" |}
        = Ok (url, vars) ->
        url = endpoint ++ str "/chains/" ++ chainId
                ++ str "/applications/" ++ tokenFactory)
    /\ (forall url vars,
          submitRequest toLowerCase keccak_256 personal_sign walletAddress
            form
            {| form_signature := signature; form_chainId := chainId;
               form_tokenFactory := tokenFactory;
               form_endpoint := endpoint ++ str "//" |}
          = Ok (url, vars) ->
          url = endpoint ++ str "/" ++ str "/chains/" ++ chainId
                  ++ str "/applications/" ++ tokenFactory)
    /\ (trim signature <> [] ->
        exists vars,
          submitRequest toLowerCase keccak_256 personal_sign walletAddress
            form
            {| form_signature := signature; form_chainId := chainId;
               form_tokenFactory := tokenFactory;
               form_endpoint := endpoint ++ str "/" |}
          = Ok (endpoint ++ str "/chains/" ++ chainId
                  ++ str "/applications/" ++ tokenFactory, vars))
    /\ ((forall r, rev endpoint <> 47 :: r) ->
        submitRequest toLowerCase keccak_256 personal_sign walletAddress form
          {| form_signature := signature; form_chainId := chainId;
             form_tokenFactory := tokenFactory;
             form_endpoint := endpoint ++ str "/" |}
        = submitRequest toLowerCase keccak_256 personal_sign walletAddress
            form
            {| form_signature := signature; form_chainId := chainId;
               form_tokenFactory := tokenFactory;
               form_endpoint := endpoint |}
        /\ forall url vars,
            submitRequest toLowerCase keccak_256 personal_sign walletAddress
              form
              {| form_signature := signature; form_chainId := chainId;
                 form_tokenFactory := tokenFactory;
                 form_endpoint := endpoint |}
            = Ok (url, vars) ->
            url = endpoint ++ str "/chains/" ++ chainId
                    ++ str "/applications/" ++ tokenFactory).
Proof.
  intros walletAddress form signature chainId tokenFactory endpoint.
  split; [|split; [|split]].
  - intros url vars H. apply submitRequest_url in H.
    cbn [form_endpoint form_chainId form_tokenFactory] in H.
    change (endpoint ++ str "/") with (endpoint ++ [47]) in H.
    now rewrite stripTrailingSlash_slash in H.
  - intros url vars H. apply submitRequest_url in H.
    cbn [form_endpoint form_chainId form_tokenFactory] in H.
    change (endpoint ++ str "//") with (endpoint ++ [47] ++ [47]) in H.
    rewrite (app_assoc endpoint [47] [47]), stripTrailingSlash_slash in H.
    rewrite H, <- app_assoc. reflexivity.
  - intros Hsig. unfold submitRequest.
    cbn [form_signature form_chainId form_tokenFactory form_endpoint].
    destruct (trim signature) as [|c r]; [congruence|]. cbn [bind].
    change (endpoint ++ str "/") with (endpoint ++ [47]).
    rewrite stripTrailingSlash_slash. eexists. reflexivity.
  - intros H. split.
    + unfold submitRequest.
      cbn [form_signature form_chainId form_tokenFactory form_endpoint].
      change (endpoint ++ str "/") with (endpoint ++ [47]).
      now rewrite stripTrailingSlash_slash, (stripTrailingSlash_other _ H).
    + intros url vars Hr. apply submitRequest_url in Hr.
      cbn [form_endpoint form_chainId form_tokenFactory] in Hr.
      now rewrite (stripTrailingSlash_other _ H) in Hr.
Qed.

End SubmitProperties.

Lemma submitRequest_pasted_signature_witness :
  submitRequest toLowerCaseAscii sampleHash sampleWallet [] badSupplyForm
    pastedFields
  = Ok (stripTrailingSlash (form_endpoint pastedFields)
          ++ str "/chains/" ++ form_chainId pastedFields
          ++ str "/applications/" ++ form_tokenFactory pastedFields,
        {| var_owner := trim (form_owner badSupplyForm);
           var_name := trim (form_tokenName badSupplyForm);
           var_symbol := trim (form_tokenSymbol badSupplyForm);
           var_decimals := Int 0;
           var_supply := trim (form_supply badSupplyForm);
           var_sig := trim (form_signature pastedFields) |}).
Proof.
  apply (submitRequest_pasted_signature toLowerCaseAscii [] badSupplyForm
           pastedFields).
  vm_compute. discriminate.
Defined.

Lemma submitRequest_wallet_signature_witness :
  submitRequest toLowerCaseAscii sampleHash sampleWallet [] sampleForm
    unsignedFields
  = Throw (Error
      "Signature is required. Connect MetaMask or paste a signature hex.").
Proof.
  apply (proj1 (submitRequest_wallet_signature toLowerCaseAscii sampleHash
                  sampleWallet [] sampleForm unsignedFields eq_refl)).
  reflexivity.
Defined.

Lemma submitRequest_endpoint_slash_witness :
  (exists vars,
      submitRequest toLowerCaseAscii sampleHash sampleWallet [] sampleForm
        {| form_signature := str "00ff"; form_chainId := str "761f";
           form_tokenFactory := str "ff08";
           form_endpoint := str "http://127.0.0.1:8080/" ++ str "/" |}
      = Ok (str "http://127.0.0.1:8080/" ++ str "/chains/" ++ str "761f"
              ++ str "/applications/" ++ str "ff08", vars))
  /\ submitRequest toLowerCaseAscii sampleHash sampleWallet [] sampleForm
       {| form_signature := str "00ff"; form_chainId := str "761f";
          form_tokenFactory := str "ff08";
          form_endpoint := str "http://127.0.0.1:8080" ++ str "/" |}
     = submitRequest toLowerCaseAscii sampleHash sampleWallet [] sampleForm
         {| form_signature := str "00ff"; form_chainId := str "761f";
            form_tokenFactory := str "ff08";
            form_endpoint := str "http://127.0.0.1:8080" |}.
Proof.
  split.
  - apply (proj1 (proj2 (proj2
             (submitRequest_endpoint_slash toLowerCaseAscii sampleHash
                sampleWallet [] sampleForm (str "00ff") (str "761f")
                (str "ff08") (str "http://127.0.0.1:8080/"))))).
    vm_compute. discriminate.
  - apply (proj2 (proj2 (proj2
             (submitRequest_endpoint_slash toLowerCaseAscii sampleHash
                sampleWallet [] sampleForm (str "00ff") (str "761f")
                (str "ff08") (str "http://127.0.0.1:8080"))))).
    intros r. vm_compute. discriminate.
Defined.

(** ** Outcomes of the owner encoder *)

Section OwnerOutcomes.

Variable toLowerCase : jsstring -> jsstring.

(** X20: [encodeAccountOwner] has one error only.  A normalised owner of
    40 or 64 units always encodes, as tag 2 or tag 1 followed by what
    [hexToBytes] makes of it: one byte for every two units left after a
    further [0x], byte [i] being what [parseInt] reads in the [i]-th pair,
    whatever the units are (so 20 bytes, or 19 behind such a prefix, and 32
    or 31); any other length raises 'Owner must be 20-byte or 32-byte hex'.
    The length error of the hexadecimal decoder cannot come out of it. *)
Theorem encodeAccountOwner_outcomes :
  forall owner_ : jsstring,
    (length (normalizedOwner toLowerCase owner_) = 40%nat ->
     exists body,
       encodeAccountOwner toLowerCase owner_ = Ok ([2; 0; 0; 0] ++ body)
       /\ hexToBytes (normalizedOwner toLowerCase owner_) = Ok body
       /\ body
          = map (fun i =>
                   ToUint8
                     (parseInt16
                        (slice (strip0xi (normalizedOwner toLowerCase owner_))
                           (i * 2) (i * 2 + 2))))
              (seq 0 (length (strip0xi (normalizedOwner toLowerCase owner_))
                      / 2))
       /\ Forall isByte body
       /\ (2 * length body
           = length (strip0xi (normalizedOwner toLowerCase owner_)))%nat
       /\ (length body = 20 \/ length body = 19)%nat)
    /\ (length (normalizedOwner toLowerCase owner_) = 64%nat ->
        exists body,
          encodeAccountOwner toLowerCase owner_ = Ok ([1; 0; 0; 0] ++ body)
          /\ hexToBytes (normalizedOwner toLowerCase owner_) = Ok body
          /\ body
             = map (fun i =>
                      ToUint8
                        (parseInt16
                           (slice
                              (strip0xi (normalizedOwner toLowerCase owner_))
                              (i * 2) (i * 2 + 2))))
                 (seq 0
                    (length (strip0xi (normalizedOwner toLowerCase owner_))
                     / 2))
          /\ Forall isByte body
          /\ (2 * length body
              = length (strip0xi (normalizedOwner toLowerCase owner_)))%nat
          /\ (length body = 32 \/ length body = 31)%nat)
    /\ (length (normalizedOwner toLowerCase owner_) <> 40%nat ->
        length (normalizedOwner toLowerCase owner_) <> 64%nat ->
        encodeAccountOwner toLowerCase owner_
        = Throw (Error "Owner must be 20-byte or 32-byte hex")).
Proof.
  intros owner_.
  set (n := normalizedOwner toLowerCase owner_).
  assert (forall k : nat,
             length n = (2 * S k)%nat ->
             hexToBytes n = Ok (hexLoop (strip0xi n))
             /\ Forall isByte (hexLoop (strip0xi n))
             /\ (2 * length (hexLoop (strip0xi n))
                 = length (strip0xi n))%nat
             /\ (length (hexLoop (strip0xi n)) = S k
                 \/ length (hexLoop (strip0xi n)) = k)%nat) as Hdec.
  { intros k Hk.
    assert (evenLength (strip0xi n) = true) as He.
    { destruct (strip0xi_length n) as [E|E].
      - apply (evenLength_double _ (S k)). lia.
      - apply (evenLength_double _ k). lia. }
    assert (hexToBytes n = Ok (hexLoop (strip0xi n))) as H
        by (apply hexToBytes_Ok; auto).
    split; [exact H|]. destruct (hexToBytes_length _ _ H) as [Hl Hb].
    split; [exact Hb|]. split; [lia|].
    destruct (strip0xi_length n); lia. }
  unfold encodeAccountOwner. fold (normalizedOwner toLowerCase owner_).
  fold n. split; [|split].
  - intros Hl. destruct (Hdec 19%nat ltac:(lia)) as (Hb & Fb & L2 & Lb).
    exists (hexLoop (strip0xi n)). rewrite Hl, Hb. cbn [Nat.eqb bind].
    rewrite concatBytes_concat. cbn [concat]. rewrite app_nil_r.
    repeat (split; [first [reflexivity | assumption]|]). exact Lb.
  - intros Hl. destruct (Hdec 31%nat ltac:(lia)) as (Hb & Fb & L2 & Lb).
    exists (hexLoop (strip0xi n)). rewrite Hl, Hb. cbn [Nat.eqb bind].
    rewrite concatBytes_concat. cbn [concat]. rewrite app_nil_r.
    repeat (split; [first [reflexivity | assumption]|]). exact Lb.
  - intros H40 H64. apply Nat.eqb_neq in H40, H64. now rewrite H40, H64.
Qed.

End OwnerOutcomes.

Lemma encodeAccountOwner_outcomes_witness :
  exists body,
    encodeAccountOwner toLowerCaseAscii doublePrefixOwner
    = Ok ([2; 0; 0; 0] ++ body)
    /\ Forall isByte body
    /\ (2 * length body
        = length (strip0xi (normalizedOwner toLowerCaseAscii
                              doublePrefixOwner)))%nat.
Proof.
  destruct (proj1 (encodeAccountOwner_outcomes toLowerCaseAscii
                     doublePrefixOwner) eq_refl)
    as (body & He & _ & _ & Fb & L2 & _).
  exists body. auto.
Defined.

Lemma encodeCreateTokenRequest_failures_witness :
  encodeCreateTokenRequest toLowerCaseAscii
    (formPayload evmOwner badSupplyForm)
  = Throw (Error "Amount cannot be negative").
Proof.
  apply (proj2 (encodeCreateTokenRequest_failures toLowerCaseAscii
                  (formPayload evmOwner badSupplyForm)
                  (Error "Amount cannot be negative"))).
  right. split.
  - exists ([2; 0; 0; 0] ++ repeat 170 20). vm_compute. reflexivity.
  - vm_compute. reflexivity.
Defined.

Lemma concatBytes_never_out_of_range_witness :
  Forall isByte (concat [[1]; []; [2; 3]]).
Proof.
  apply (proj1 (proj2 (proj2 (concatBytes_never_out_of_range
                                [[1]; []; [2; 3]])))).
  repeat (apply Forall_cons;
          [repeat (apply Forall_cons; [unfold isByte; lia|]);
           apply Forall_nil|]).
  apply Forall_nil.
Defined.
